(** * krecu/vast: the VAST document model and its normalisation pipeline

    A shallow embedding of [vast.go] and [extension.go]: the entity tree of a
    VAST document, [Validate], [SetSecure], [FilterFormat], [FilterSize],
    [SecureUrl] and the two methods of the [Extension] codec up to their
    calls into [encoding/xml], followed by the properties the specification
    states about them.

    Conventions of the embedding
    - Go [string] is [string] (a sequence of bytes); Go [int] is a [Z] whose
      arithmetic is wrapped to 64 bits ([wrap64]); [float64] is the IEEE-754
      binary64 format of [SpecFloat] (precision 53, emax 1024).
    - A pointer field that the tree owns ([*InLine], [*Linear], ...) is an
      [option] (no two places of a document point to the same object); a
      slice is the [list] of its elements.  Where a function
      reads a slice while it appends into a re-slice of the same backing
      array, the backing array is modelled explicitly ([shared]).
    - A Go [error] is an [option string] ([None] is [nil]); a function that
      mutates its receiver returns the new value next to the error; a
      run-time panic is a constructor of [outcome]. *)

From Stdlib Require Import ZArith String Ascii List Bool Lia DecimalString.
From Stdlib Require Import Floats.SpecFloat.
From stdpp Require Import base option list strings gmap fin_maps.

Local Open Scope string_scope.

(** ** Strings *)

Module Strings.

(** [strings.Replace(s, old, new, -1)] for a non-empty [old]: the
    non-overlapping occurrences of [old] are replaced left to right.
    [skip] counts the bytes of a matched occurrence still to be dropped. *)
Fixpoint replace_from (old new : string) (skip : nat) (s : string) : string :=
  match s with
  | EmptyString => EmptyString
  | String c s' =>
      match skip with
      | S k => replace_from old new k s'
      | O =>
          if String.prefix old s
          then new +:+ replace_from old new (String.length old - 1) s'
          else String c (replace_from old new 0 s')
      end
  end.

Definition Replace (s old new : string) : string := replace_from old new 0 s.

(** [strings.Contains(s, pat)]. *)
Fixpoint Contains (s pat : string) : bool :=
  String.prefix pat s ||
  match s with
  | EmptyString => false
  | String _ s' => Contains s' pat
  end.

Definition byte (n : nat) : ascii := ascii_of_nat n.
Definition bytes (l : list nat) : string := string_of_list_ascii (map byte l).

(** The string without the bytes equal to [c]. *)
Fixpoint delete_byte (c : ascii) (s : string) : string :=
  match s with
  | EmptyString => EmptyString
  | String a s' => if ascii_dec c a then delete_byte c s' else String a (delete_byte c s')
  end.

(** The UTF-8 encodings of the runes for which [unicode.IsSpace] holds:
    tab, LF, VT, FF, CR, space, U+0085, U+00A0, U+1680, U+2000..U+200A,
    U+2028, U+2029, U+202F, U+205F, U+3000. *)
Definition space_runes : list string :=
  map bytes
    ([ [9]; [10]; [11]; [12]; [13]; [32]; [194; 133]; [194; 160]; [225; 154; 128] ]
     ++ map (fun k => [226; 128; k]) [128; 129; 130; 131; 132; 133; 134; 135; 136; 137; 138]
     ++ [ [226; 128; 168]; [226; 128; 169]; [226; 128; 175]; [226; 129; 159]; [227; 128; 128] ])%list.

Fixpoint drop (n : nat) (s : string) : string :=
  match n, s with
  | S k, String _ s' => drop k s'
  | _, _ => s
  end.

(** The length of the space rune [s] starts with, if it starts with one. *)
Definition leading_space (s : string) : option nat :=
  String.length <$> List.find (fun r => String.prefix r s) space_runes.

(** [strings.TrimLeftFunc(s, unicode.IsSpace)]; [fuel] bounds the number
    of runes removed and is the length of the string. *)
Fixpoint trim_left (fuel : nat) (s : string) : string :=
  match fuel with
  | O => s
  | S k =>
      match leading_space s with
      | Some n => trim_left k (drop n s)
      | None => s
      end
  end.

Definition rev_string (s : string) : string :=
  string_of_list_ascii (rev (list_ascii_of_string s)).

Definition trailing_space (r : string) : option nat :=
  String.length <$> List.find (fun p => String.prefix (rev_string p) r) space_runes.

(** [strings.TrimRightFunc(s, unicode.IsSpace)], on the reversed string. *)
Fixpoint trim_right_rev (fuel : nat) (r : string) : string :=
  match fuel with
  | O => r
  | S k =>
      match trailing_space r with
      | Some n => trim_right_rev k (drop n r)
      | None => r
      end
  end.

(** [strings.TrimSpace]: leading and trailing white space removed. *)
Definition TrimSpace (s : string) : string :=
  let l := trim_left (String.length s) s in
  rev_string (trim_right_rev (String.length l) (rev_string l)).

End Strings.

Local Open Scope Z_scope.

(** ** [SecureUrl] *)

(** The two halves of [SecureUrl], named for the statements below. *)
Definition strip_scheme (url : string) : string :=
  Strings.Replace (Strings.Replace (Strings.Replace url "http:" "") "https:" "") "//" "".
Definition strip_space (url : string) : string :=
  Strings.Replace
    (Strings.Replace (Strings.Replace url (Strings.bytes [10%nat]) "") (Strings.bytes [9%nat]) "")
    " " "".
Definition scheme (secure : bool) : string := if secure then "https://" else "http://".

Definition SecureUrl (url : string) (secure : bool) : string :=
  let url := Strings.Replace url "http:" "" in
  let url := Strings.Replace url "https:" "" in
  let url := Strings.Replace url "//" "" in
  let url := if secure then "https://" +:+ url else "http://" +:+ url in
  let clear := Strings.Replace url (Strings.bytes [10%nat]) "" in
  let clear := Strings.Replace clear (Strings.bytes [9%nat]) "" in
  let clear := Strings.Replace clear " " "" in
  clear.

(** ** Go values *)

(** Go's [int] on a 64-bit platform: results wrap around modulo 2^64. *)
Definition wrap64 (z : Z) : Z := (z + 2 ^ 63) mod 2 ^ 64 - 2 ^ 63.
Definition int_sub (a b : Z) : Z := wrap64 (a - b).
Definition int_mul (a b : Z) : Z := wrap64 (a * b).

(** The verb [%d] of [fmt.Errorf] at a slice index. *)
Definition fmt_d (i : nat) : string := NilEmpty.string_of_uint (Nat.to_uint i).

(** A Go [error]: [None] is [nil], [Some msg] carries [err.Error()]. *)
Definition error : Type := option string.
Definition errors_New (msg : string) : error := Some msg.

(** The two run-time panics the code can raise. *)
Inductive panic : Type :=
| IndexOutOfRange
| NilDereference.

(** What a call of a pointer-receiver method leaves behind: the receiver
    after the call together with the returned error, or a panic. *)
Inductive outcome (A : Type) : Type :=
| Returned (receiver : A) (err : error)
| Panicked (p : panic).
Arguments Returned {A} receiver err.
Arguments Panicked {A} p.

(** ** Slices that share their backing array

    [filtered := s[:0]] followed by [append(filtered, x)] inside a
    [range s] loop writes into the array [s] is read from.  [store] is that
    array restricted to the cells [0 .. len(s)-1] (the only ones the loop
    reads), [out] the elements appended so far.  The k-th append writes cell
    [k] while [k] is below the capacity; a write at or beyond [len(s)],
    whether into spare capacity or into a reallocated array, is never read
    back by the loop, which is what the out-of-range behaviour of the list
    update expresses. *)
Section Shared.
Context {A : Type}.

Record shared : Type := Shared { store : list A; out : list A }.

Definition alias (s : list A) : shared := {| store := s; out := [] |}.

Definition append (st : shared) (x : A) : shared :=
  {| store := <[length (out st) := x]> (store st); out := (out st ++ [x])%list |}.

(** [for _, m := range s { body }]: the length is fixed on entry and the
    element of iteration [i] is read from the array when it is reached. *)
Fixpoint range_from (body : A -> shared -> shared) (count i : nat) (st : shared) : shared :=
  match count with
  | O => st
  | S c =>
      match store st !! i with
      | Some m => range_from body c (S i) (body m st)
      | None => st
      end
  end.

Definition range (body : A -> shared -> shared) (st : shared) : shared :=
  range_from body (length (store st)) 0 st.

(** The idiom used by every [Validate]: keep (a possibly rewritten copy
    of) the elements [keep] accepts. *)
Definition keep_body (keep : A -> option A) (m : A) (st : shared) : shared :=
  match keep m with Some y => append st y | None => st end.

Definition filter_in_place (keep : A -> option A) (s : list A) : list A :=
  out (range (keep_body keep) (alias s)).

(** [for i, x := range l { err := f(x); if err != nil { return wrap i err } }],
    where [f] may change what [x] points to. *)
Fixpoint each_from (f : A -> A * error) (wrap : nat -> string -> string)
         (i : nat) (l : list A) : list A * error :=
  match l with
  | [] => ([], None)
  | x :: r =>
      let (x', e) := f x in
      match e with
      | Some msg => (x' :: r, Some (wrap i msg))
      | None => let (r', e') := each_from f wrap (S i) r in (x' :: r', e')
      end
  end.

Definition each (f : A -> A * error) (wrap : nat -> string -> string) (l : list A) :=
  each_from f wrap 0 l.
End Shared.
Arguments shared A : clear implicits.

Definition nonempty (s : string) : bool := negb (String.eqb s "").

(** ** The data model *)

(** Modelled from the spec: the declarations of [Offset] and [Duration] are
    not among the sources; the specification describes both as opaque
    string-based time values. *)
Definition Offset : Type := string.
Definition Duration : Type := string.

Module CDATAString.
Record t : Type := mk { CDATA : string }.
End CDATAString.

Module Impression.
Record t : Type := mk { ID : string; URI : string }.
End Impression.

Module Viewable.
Record t : Type := mk { ID : string; URI : string }.
End Viewable.

Module AdSystem.
Record t : Type := mk { Version : string; Name : string }.
End AdSystem.

Module StaticResource.
Record t : Type := mk { CreativeType : string; URI : string }.
End StaticResource.

Module HTMLResource.
Record t : Type := mk { XMLEncoded : bool; HTML : string }.
End HTMLResource.

Module AdParameters.
Record t : Type := mk { XMLEncoded : bool; Parameters : string }.
End AdParameters.

Module Tracking.
Record t : Type := mk { Event : string; Offset : option Offset; URI : string }.

Definition Validate (track : t) : error :=
  if String.eqb (Event track) "" then errors_New "empty event" else None.
End Tracking.

Module VideoClick.
Record t : Type := mk { ID : string; URI : string }.
End VideoClick.

Module VideoClicks.
Record t : Type := mk {
  ClickThroughs : list VideoClick.t;
  ClickTrackings : list VideoClick.t;
  CustomClicks : list VideoClick.t }.

Definition keep (c : VideoClick.t) : option VideoClick.t :=
  if nonempty (VideoClick.URI c) then Some c else None.

(** A list that filters down to nothing is stored as [nil]; the model does
    not tell a nil slice from an empty one. *)
Definition Validate (click : t) : t * error :=
  let filterClickThroughs := filter_in_place keep (ClickThroughs click) in
  let click := mk (match filterClickThroughs with [] => [] | _ => filterClickThroughs end)
                  (ClickTrackings click) (CustomClicks click) in
  let filterClickTrackings := filter_in_place keep (ClickTrackings click) in
  let click := mk (ClickThroughs click)
                  (match filterClickTrackings with [] => [] | _ => filterClickTrackings end)
                  (CustomClicks click) in
  let filterCustomClicks := filter_in_place keep (CustomClicks click) in
  let click := mk (ClickThroughs click) (ClickTrackings click)
                  (match filterCustomClicks with [] => [] | _ => filterCustomClicks end) in
  (click, None).
End VideoClicks.

Module MediaFile.
Record t : Type := mk {
  ID : string;
  Delivery : string;
  Type_ : string;
  Codec : string;
  Bitrate : Z;
  MinBitrate : Z;
  MaxBitrate : Z;
  Width : Z;
  Height : Z;
  Scalable : bool;
  MaintainAspectRatio : bool;
  APIFramework : string;
  URI : string }.

Definition Validate (media : t) : error :=
  if String.eqb (URI media) "" then errors_New "empty uri"
  else if String.eqb (Type_ media) "" then errors_New "empty type"
  else if Z.eqb (Width media) 0 then errors_New "empty width"
  else if Z.eqb (Height media) 0 then errors_New "empty height"
  else None.

Definition set_URI (u : string) (m : t) : t :=
  mk (ID m) (Delivery m) (Type_ m) (Codec m) (Bitrate m) (MinBitrate m) (MaxBitrate m)
     (Width m) (Height m) (Scalable m) (MaintainAspectRatio m) (APIFramework m) u.

Definition set_size (w h : Z) (m : t) : t :=
  mk (ID m) (Delivery m) (Type_ m) (Codec m) (Bitrate m) (MinBitrate m) (MaxBitrate m)
     w h (Scalable m) (MaintainAspectRatio m) (APIFramework m) (URI m).
End MediaFile.

Module Icon.
Record t : Type := mk {
  Program : string;
  Width : Z;
  Height : Z;
  XPosition : string;
  YPosition : string;
  Offset : Offset;
  Duration : Duration;
  APIFramework : string;
  IconClickThrough : CDATAString.t;
  IconClickTrackings : list CDATAString.t;
  StaticResource : option StaticResource.t;
  IFrameResource : CDATAString.t;
  HTMLResource : option HTMLResource.t }.
End Icon.

Module Icons.
Record t : Type := mk { XMLName : string * string; Icon : list Icon.t }.
End Icons.

Module Companion.
Record t : Type := mk {
  ID : string;
  Width : Z;
  Height : Z;
  AssetWidth : Z;
  AssetHeight : Z;
  ExpandedWidth : Z;
  ExpandeHeight : Z;
  APIFramework : string;
  AdSlotID : string;
  CompanionClickThrough : CDATAString.t;
  CompanionClickTracking : list CDATAString.t;
  AltText : string;
  TrackingEvents : list Tracking.t;
  AdParameters : option AdParameters.t;
  StaticResource : option StaticResource.t;
  IFrameResource : CDATAString.t;
  HTMLResource : option HTMLResource.t }.
End Companion.

(** [CompanionWrapper] declares the same fields as [Companion]. *)
Module CompanionWrapper.
Definition t : Type := Companion.t.
End CompanionWrapper.

Module NonLinear.
Record t : Type := mk {
  ID : string;
  Width : Z;
  Height : Z;
  ExpandedWidth : Z;
  ExpandeHeight : Z;
  Scalable : bool;
  MaintainAspectRatio : bool;
  MinSuggestedDuration : option Duration;
  APIFramework : string;
  NonLinearClickTracking : list CDATAString.t;
  NonLinearClickThrough : CDATAString.t;
  AdParameters : option AdParameters.t;
  StaticResource : option StaticResource.t;
  IFrameResource : CDATAString.t;
  HTMLResource : option HTMLResource.t }.
End NonLinear.

Module NonLinearWrapper.
Record t : Type := mk {
  ID : string;
  Width : Z;
  Height : Z;
  ExpandedWidth : Z;
  ExpandeHeight : Z;
  Scalable : bool;
  MaintainAspectRatio : bool;
  MinSuggestedDuration : option Duration;
  APIFramework : string;
  TrackingEvents : list Tracking.t;
  NonLinearClickTracking : list CDATAString.t }.
End NonLinearWrapper.

Module CompanionAds.
Record t : Type := mk { Required : string; Companions : list Companion.t }.
End CompanionAds.

Module CompanionAdsWrapper.
Record t : Type := mk { Required : string; Companions : list CompanionWrapper.t }.
End CompanionAdsWrapper.

Module NonLinearAds.
Record t : Type := mk {
  TrackingEvents : list Tracking.t;
  NonLinears : list NonLinear.t }.

Definition Validate (nonlinear : t) : t * error := (nonlinear, None).
End NonLinearAds.

Module NonLinearAdsWrapper.
Record t : Type := mk {
  TrackingEvents : list Tracking.t;
  NonLinears : list NonLinearWrapper.t }.
End NonLinearAdsWrapper.

Module Linear.
Record t : Type := mk {
  SkipOffset : option Offset;
  Duration : Duration;
  AdParameters : option AdParameters.t;
  Icons : option Icons.t;
  TrackingEvents : list Tracking.t;
  VideoClicks : option VideoClicks.t;
  MediaFiles : list MediaFile.t }.

Definition set_TrackingEvents (x : list Tracking.t) (l : t) : t :=
  mk (SkipOffset l) (Duration l) (AdParameters l) (Icons l) x (VideoClicks l) (MediaFiles l).
Definition set_VideoClicks (x : option VideoClicks.t) (l : t) : t :=
  mk (SkipOffset l) (Duration l) (AdParameters l) (Icons l) (TrackingEvents l) x (MediaFiles l).
Definition set_MediaFiles (x : list MediaFile.t) (l : t) : t :=
  mk (SkipOffset l) (Duration l) (AdParameters l) (Icons l) (TrackingEvents l) (VideoClicks l) x.

Definition keep (t0 : Tracking.t) : option Tracking.t :=
  if nonempty (Tracking.URI t0) then Some t0 else None.

Definition Validate (linear : t) : t * error :=
  match MediaFiles linear with
  | [] => (linear, errors_New "empty media")
  | _ =>
      match each (fun m => (m, MediaFile.Validate m))
                 (fun i msg => "bad media[" +:+ fmt_d i +:+ "] " +:+ msg)
                 (MediaFiles linear) with
      | (_, Some msg) => (linear, Some msg)
      | (_, None) =>
          let filterTracking := filter_in_place keep (TrackingEvents linear) in
          let linear := set_TrackingEvents filterTracking linear in
          match each (fun t0 => (t0, Tracking.Validate t0))
                     (fun i msg => "bad track[" +:+ fmt_d i +:+ "] " +:+ msg)
                     (TrackingEvents linear) with
          | (_, Some msg) => (linear, Some msg)
          | (_, None) =>
              match VideoClicks linear with
              | Some clicks =>
                  let (clicks', err) := VideoClicks.Validate clicks in
                  (set_VideoClicks (Some clicks') linear, err)
              | None => (linear, None)
              end
          end
      end
  end.
End Linear.

Module LinearWrapper.
Record t : Type := mk {
  Icons : option Icons.t;
  TrackingEvents : list Tracking.t;
  VideoClicks : option VideoClicks.t }.
End LinearWrapper.

Module Creative.
Record t : Type := mk {
  ID : string;
  Sequence : Z;
  AdID : string;
  APIFramework : string;
  Linear : option Linear.t;
  CompanionAds : option CompanionAds.t;
  NonLinearAds : option NonLinearAds.t }.

Definition set_Linear (x : option Linear.t) (c : t) : t :=
  mk (ID c) (Sequence c) (AdID c) (APIFramework c) x (CompanionAds c) (NonLinearAds c).
Definition set_NonLinearAds (x : option NonLinearAds.t) (c : t) : t :=
  mk (ID c) (Sequence c) (AdID c) (APIFramework c) (Linear c) (CompanionAds c) x.

Definition Validate (creative : t) : t * error :=
  match Linear creative with
  | Some linear =>
      let (linear', err) := Linear.Validate linear in
      (set_Linear (Some linear') creative, err)
  | None =>
      match NonLinearAds creative with
      | Some nonlinear =>
          let (nonlinear', err) := NonLinearAds.Validate nonlinear in
          (set_NonLinearAds (Some nonlinear') creative, err)
      | None => (creative, errors_New "empty linear/nonlinear")
      end
  end.

Definition secure_tracking (secure : bool) (t0 : Tracking.t) : Tracking.t :=
  Tracking.mk (Tracking.Event t0) (Tracking.Offset t0) (SecureUrl (Tracking.URI t0) secure).
Definition secure_click (secure : bool) (c : VideoClick.t) : VideoClick.t :=
  VideoClick.mk (VideoClick.ID c) (SecureUrl (VideoClick.URI c) secure).
Definition secure_media (secure : bool) (m : MediaFile.t) : MediaFile.t :=
  MediaFile.set_URI (SecureUrl (MediaFile.URI m) secure) m.

Definition SetSecure (secure : bool) (creative : t) : t :=
  match Linear creative with
  | Some linear =>
      let linear :=
        Linear.set_TrackingEvents
          (map (secure_tracking secure) (Linear.TrackingEvents linear)) linear in
      let linear :=
        match Linear.VideoClicks linear with
        | Some clicks =>
            let clicks :=
              VideoClicks.mk (VideoClicks.ClickThroughs clicks)
                (map (secure_click secure) (VideoClicks.ClickTrackings clicks))
                (VideoClicks.CustomClicks clicks) in
            let clicks :=
              VideoClicks.mk (map (secure_click secure) (VideoClicks.ClickThroughs clicks))
                (VideoClicks.ClickTrackings clicks)
                (VideoClicks.CustomClicks clicks) in
            Linear.set_VideoClicks (Some clicks) linear
        | None => linear
        end in
      let linear :=
        Linear.set_MediaFiles (map (secure_media secure) (Linear.MediaFiles linear)) linear in
      set_Linear (Some linear) creative
  | None =>
      match NonLinearAds creative with
      | Some nonlinear =>
          set_NonLinearAds
            (Some (NonLinearAds.mk
                     (map (secure_tracking secure) (NonLinearAds.TrackingEvents nonlinear))
                     (NonLinearAds.NonLinears nonlinear)))
            creative
      | None => creative
      end
  end.
End Creative.

Module CreativeWrapper.
Record t : Type := mk {
  ID : string;
  Sequence : Z;
  AdID : string;
  Linear : option LinearWrapper.t;
  CompanionAds : option CompanionAdsWrapper.t;
  NonLinearAds : option NonLinearAdsWrapper.t }.
End CreativeWrapper.

(** ** The Extension codec ([extension.go]) *)

Module xml.
Record Name : Type := mkName { Space : string; Local : string }.
Record Attr : Type := mkAttr { AttrName : Name; Value : string }.
Record StartElement : Type := mkStart { ElemName : Name; Attrs : list Attr }.
End xml.

Module Extension.
Record t : Type := mk {
  Type_ : string;
  Name : string;
  CustomTracking : list Tracking.t;
  Data : string;
  Attributes : gmap string string }.

(** [type extension Extension]: the same fields without the methods. *)
Definition extension : Type := t.

Record extensionNoCT : Type := mkNoCT {
  NoCT_Type : string;
  NoCT_Name : string;
  NoCT_Data : string }.

(** The value [MarshalXML] hands to [enc.EncodeElement]. *)
Inductive shape : Type :=
| WithCT (e2 : extension)
| WithoutCT (e2 : extensionNoCT).

(** [MarshalXML] up to the call of the encoder: the chosen shape and the
    start element with one attribute per entry of [Attributes] (the
    iteration order of a Go map is unspecified; [map_to_list] fixes one). *)
Definition MarshalXML (e : t) (start : xml.StartElement) : shape * xml.StartElement :=
  let e2 :=
    if (0 <? length (CustomTracking e))%nat
    then WithCT (mk (Type_ e) (Name e) (CustomTracking e) "" ∅)
    else WithoutCT (mkNoCT (Type_ e) (Name e) (Data e)) in
  let start :=
    if (0 <? size (Attributes e))%nat
    then xml.mkStart (xml.ElemName start)
           (xml.Attrs start ++
            map (fun kv => xml.mkAttr (xml.mkName "" (fst kv)) (snd kv))
                (map_to_list (Attributes e)))%list
    else start in
  (e2, start).

Definition reserved (name : string) : bool :=
  String.eqb name "name" || String.eqb name "type".

(** [UnmarshalXML]; [DecodeElement start] stands for
    [dec.DecodeElement(&e2, &start)] on a zero [e2]: the decoded value and
    the decoder's error. *)
Definition UnmarshalXML (DecodeElement : xml.StartElement -> extension * error)
           (e : t) (start : xml.StartElement) : t * error :=
  let (e2, err) := DecodeElement start in
  match err with
  | Some msg => (e, Some msg)
  | None =>
      let e := mk (Type_ e2) (Name e2) (CustomTracking e2) (Data e) (Attributes e) in
      let e :=
        if (length (CustomTracking e) =? 0)%nat
        then mk (Type_ e) (Name e) (CustomTracking e) (Data e2) (Attributes e)
        else e in
      let e :=
        if (0 <? length (xml.Attrs start))%nat
        then mk (Type_ e) (Name e) (CustomTracking e) (Data e)
                (map_fold (fun name value attrs =>
                             if negb (reserved name) then <[name := value]> attrs else attrs)
                          (Attributes e) (Attributes e))
        else e in
      (e, None)
  end.
End Extension.

(** ** Ads *)

Module InLine.
Record t : Type := mk {
  AdSystem : option AdSystem.t;
  AdTitle : CDATAString.t;
  Impressions : list Impression.t;
  ViewableImpression : list Viewable.t;
  Creatives : list Creative.t;
  Description : CDATAString.t;
  Advertiser : string;
  Survey : CDATAString.t;
  Errors : list CDATAString.t;
  Pricing : string;
  Extensions : list Extension.t }.

Definition set_Impressions (x : list Impression.t) (l : t) : t :=
  mk (AdSystem l) (AdTitle l) x (ViewableImpression l) (Creatives l) (Description l)
     (Advertiser l) (Survey l) (Errors l) (Pricing l) (Extensions l).
Definition set_ViewableImpression (x : list Viewable.t) (l : t) : t :=
  mk (AdSystem l) (AdTitle l) (Impressions l) x (Creatives l) (Description l)
     (Advertiser l) (Survey l) (Errors l) (Pricing l) (Extensions l).
Definition set_Creatives (x : list Creative.t) (l : t) : t :=
  mk (AdSystem l) (AdTitle l) (Impressions l) (ViewableImpression l) x (Description l)
     (Advertiser l) (Survey l) (Errors l) (Pricing l) (Extensions l).
Definition set_Errors (x : list CDATAString.t) (l : t) : t :=
  mk (AdSystem l) (AdTitle l) (Impressions l) (ViewableImpression l) (Creatives l)
     (Description l) (Advertiser l) (Survey l) x (Pricing l) (Extensions l).

(** The [else] branch of the Impressions loop trims the loop variable of a
    dropped entry and has no effect. *)
Definition keepImp (imp : Impression.t) : option Impression.t :=
  if nonempty (Impression.URI imp)
  then Some (Impression.mk (Impression.ID imp) (Strings.TrimSpace (Impression.URI imp)))
  else None.
Definition keepErr (imp : CDATAString.t) : option CDATAString.t :=
  if nonempty (CDATAString.CDATA imp) then Some imp else None.
Definition keepVImp (imp : Viewable.t) : option Viewable.t :=
  if nonempty (Viewable.URI imp)
  then Some (Viewable.mk (Viewable.ID imp) (Strings.TrimSpace (Viewable.URI imp)))
  else None.

Definition Validate (inline : t) : t * error :=
  match Creatives inline with
  | [] => (inline, errors_New "empty creative")
  | _ =>
      let (creatives, err) :=
        each Creative.Validate
             (fun i msg => "bad creative[" +:+ fmt_d i +:+ "] " +:+ msg)
             (Creatives inline) in
      let inline := set_Creatives creatives inline in
      match err with
      | Some msg => (inline, Some msg)
      | None =>
          let inline := set_Impressions (filter_in_place keepImp (Impressions inline)) inline in
          let inline := set_Errors (filter_in_place keepErr (Errors inline)) inline in
          let inline :=
            set_ViewableImpression
              (filter_in_place keepVImp (ViewableImpression inline)) inline in
          (inline, None)
      end
  end.

Definition secure_viewable (secure : bool) (imp : Viewable.t) : Viewable.t :=
  Viewable.mk (Viewable.ID imp) (SecureUrl (Viewable.URI imp) secure).
Definition secure_impression (secure : bool) (imp : Impression.t) : Impression.t :=
  Impression.mk (Impression.ID imp) (SecureUrl (Impression.URI imp) secure).
Definition secure_cdata (secure : bool) (imp : CDATAString.t) : CDATAString.t :=
  CDATAString.mk (SecureUrl (CDATAString.CDATA imp) secure).

Definition SetSecure (secure : bool) (inline : t) : t :=
  let inline := set_Creatives (map (Creative.SetSecure secure) (Creatives inline)) inline in
  let inline :=
    set_ViewableImpression
      (map (secure_viewable secure) (ViewableImpression inline)) inline in
  let inline := set_Impressions (map (secure_impression secure) (Impressions inline)) inline in
  let inline := set_Errors (map (secure_cdata secure) (Errors inline)) inline in
  inline.
End InLine.

Module Wrapper.
Record t : Type := mk {
  AdSystem : option AdSystem.t;
  VASTAdTagURI : CDATAString.t;
  Impressions : list Impression.t;
  ViewableImpression : list Viewable.t;
  Errors : list CDATAString.t;
  Creatives : list CreativeWrapper.t;
  Extensions : list Extension.t;
  FallbackOnNoAd : option bool;
  AllowMultipleAds : option bool;
  FollowAdditionalWrappers : option bool }.

Definition set_Impressions (x : list Impression.t) (w : t) : t :=
  mk (AdSystem w) (VASTAdTagURI w) x (ViewableImpression w) (Errors w) (Creatives w)
     (Extensions w) (FallbackOnNoAd w) (AllowMultipleAds w) (FollowAdditionalWrappers w).
Definition set_ViewableImpression (x : list Viewable.t) (w : t) : t :=
  mk (AdSystem w) (VASTAdTagURI w) (Impressions w) x (Errors w) (Creatives w)
     (Extensions w) (FallbackOnNoAd w) (AllowMultipleAds w) (FollowAdditionalWrappers w).

Definition keepImp (imp : Impression.t) : option Impression.t :=
  if nonempty (Impression.URI imp) then Some imp else None.
Definition keepVImp (imp : Viewable.t) : option Viewable.t :=
  if nonempty (Viewable.URI imp) then Some imp else None.

Definition Validate (wrap : t) : t * error :=
  let wrap := set_Impressions (filter_in_place keepImp (Impressions wrap)) wrap in
  let wrap :=
    set_ViewableImpression (filter_in_place keepVImp (ViewableImpression wrap)) wrap in
  (wrap, None).
End Wrapper.

Module Ad.
Record t : Type := mk {
  ID : string;
  Sequence : Z;
  InLine : option InLine.t;
  Wrapper : option Wrapper.t }.

Definition Validate (ad : t) : t * error :=
  match Wrapper ad with
  | Some wrap =>
      let (wrap', err) := Wrapper.Validate wrap in
      (mk (ID ad) (Sequence ad) (InLine ad) (Some wrap'), err)
  | None =>
      match InLine ad with
      | Some inline =>
          let (inline', err) := InLine.Validate inline in
          (mk (ID ad) (Sequence ad) (Some inline') (Wrapper ad), err)
      | None => (ad, errors_New "empty inline and wrapper")
      end
  end.

Definition SetSecure (secure : bool) (ad : t) : t :=
  match Wrapper ad with
  | Some _ => ad
  | None =>
      match InLine ad with
      | Some inline => mk (ID ad) (Sequence ad) (Some (InLine.SetSecure secure inline)) (Wrapper ad)
      | None => ad
      end
  end.
End Ad.

(** ** Results of the methods that return nothing *)

(** What a call of a method without result leaves behind: the receiver
    after the call, or a panic. *)
Inductive effect (A : Type) : Type :=
| Done (receiver : A)
| Panics (p : panic).
Arguments Done {A} receiver.
Arguments Panics {A} p.

(** A [range] loop whose body may panic: the elements are visited in order
    and the first panic ends the call. *)
Fixpoint visit {A : Type} (f : A -> effect A) (l : list A) : effect (list A) :=
  match l with
  | [] => Done []
  | x :: r =>
      match f x with
      | Panics p => Panics p
      | Done x' =>
          match visit f r with
          | Panics p => Panics p
          | Done r' => Done (x' :: r')
          end
      end
  end.

(** ** Field updates used by the assembly methods *)

Module Update.
Definition Wrapper_AdSystem (x : option AdSystem.t) (w : Wrapper.t) : Wrapper.t :=
  Wrapper.mk x (Wrapper.VASTAdTagURI w) (Wrapper.Impressions w) (Wrapper.ViewableImpression w)
    (Wrapper.Errors w) (Wrapper.Creatives w) (Wrapper.Extensions w)
    (Wrapper.FallbackOnNoAd w) (Wrapper.AllowMultipleAds w) (Wrapper.FollowAdditionalWrappers w).
Definition Wrapper_Creatives (x : list CreativeWrapper.t) (w : Wrapper.t) : Wrapper.t :=
  Wrapper.mk (Wrapper.AdSystem w) (Wrapper.VASTAdTagURI w) (Wrapper.Impressions w)
    (Wrapper.ViewableImpression w) (Wrapper.Errors w) x (Wrapper.Extensions w)
    (Wrapper.FallbackOnNoAd w) (Wrapper.AllowMultipleAds w) (Wrapper.FollowAdditionalWrappers w).
Definition Wrapper_Extensions (x : list Extension.t) (w : Wrapper.t) : Wrapper.t :=
  Wrapper.mk (Wrapper.AdSystem w) (Wrapper.VASTAdTagURI w) (Wrapper.Impressions w)
    (Wrapper.ViewableImpression w) (Wrapper.Errors w) (Wrapper.Creatives w) x
    (Wrapper.FallbackOnNoAd w) (Wrapper.AllowMultipleAds w) (Wrapper.FollowAdditionalWrappers w).
Definition InLine_AdSystem (x : option AdSystem.t) (l : InLine.t) : InLine.t :=
  InLine.mk x (InLine.AdTitle l) (InLine.Impressions l) (InLine.ViewableImpression l)
    (InLine.Creatives l) (InLine.Description l) (InLine.Advertiser l) (InLine.Survey l)
    (InLine.Errors l) (InLine.Pricing l) (InLine.Extensions l).
Definition InLine_Advertiser (x : string) (l : InLine.t) : InLine.t :=
  InLine.mk (InLine.AdSystem l) (InLine.AdTitle l) (InLine.Impressions l)
    (InLine.ViewableImpression l) (InLine.Creatives l) (InLine.Description l) x
    (InLine.Survey l) (InLine.Errors l) (InLine.Pricing l) (InLine.Extensions l).
Definition InLine_Extensions (x : list Extension.t) (l : InLine.t) : InLine.t :=
  InLine.mk (InLine.AdSystem l) (InLine.AdTitle l) (InLine.Impressions l)
    (InLine.ViewableImpression l) (InLine.Creatives l) (InLine.Description l)
    (InLine.Advertiser l) (InLine.Survey l) (InLine.Errors l) (InLine.Pricing l) x.
Definition Ad_InLine (x : InLine.t) (a : Ad.t) : Ad.t :=
  Ad.mk (Ad.ID a) (Ad.Sequence a) (Some x) (Ad.Wrapper a).
Definition Ad_Wrapper (x : Wrapper.t) (a : Ad.t) : Ad.t :=
  Ad.mk (Ad.ID a) (Ad.Sequence a) (Ad.InLine a) (Some x).
Definition NonLinearAds_TrackingEvents (x : list Tracking.t) (n : NonLinearAds.t)
  : NonLinearAds.t :=
  NonLinearAds.mk x (NonLinearAds.NonLinears n).
Definition ClickTrackings (x : list VideoClick.t) (c : VideoClicks.t) : VideoClicks.t :=
  VideoClicks.mk (VideoClicks.ClickThroughs c) x (VideoClicks.CustomClicks c).
Definition ClickThroughs (x : list VideoClick.t) (c : VideoClicks.t) : VideoClicks.t :=
  VideoClicks.mk x (VideoClicks.ClickTrackings c) (VideoClicks.CustomClicks c).
End Update.

Module DisplayManage.
Record t : Type := mk { Name : string; Title : string; Ver : string }.
End DisplayManage.

(** ** [ClearBuf] and [ClearStr] *)

(** [string(buf)] and [[]byte(clear)] copy the bytes; a byte slice is
    modelled like a string. *)
Definition ClearBuf (buf : string) : string :=
  let clear := Strings.Replace buf (Strings.bytes [10%nat]) "" in
  let clear := Strings.Replace clear (Strings.bytes [9%nat]) "" in
  clear.

Definition ClearStr (buf : string) : string :=
  let clear := Strings.Replace buf (Strings.bytes [10%nat]) "" in
  let clear := Strings.Replace clear (Strings.bytes [9%nat]) "" in
  clear.

(** ** [float64] *)

Module float64.
Definition t : Type := spec_float.
Definition prec : Z := 53.
Definition emax : Z := 1024.

(** The conversion [float64(n)] of an [int]: round to nearest, ties to even. *)
Definition of_int (n : Z) : t := binary_normalize prec emax n 0 false.
Definition mul : t -> t -> t := SFmul prec emax.
Definition div : t -> t -> t := SFdiv prec emax.
Definition sub : t -> t -> t := SFsub prec emax.
Definition Abs : t -> t := SFabs.
Definition lt : t -> t -> bool := SFltb.
Definition le : t -> t -> bool := SFleb.
End float64.

(** ** The document root *)

Module VAST.
Record t : Type := mk {
  Version : string;
  Ads : list Ad.t;
  Errors : list CDATAString.t }.

Definition SetSecure (secure : bool) (v : t) : t :=
  let v := mk (Version v) (Ads v) (map (InLine.secure_cdata secure) (Errors v)) in
  mk (Version v) (map (Ad.SetSecure secure) (Ads v)) (Errors v).

Definition Validate (v : t) : t * error :=
  match Ads v with
  | [] => (v, errors_New "empty ads")
  | _ =>
      let (ads, err) :=
        each Ad.Validate (fun i msg => "bad ad[" +:+ fmt_d i +:+ "] " +:+ msg) (Ads v) in
      (mk (Version v) ads (Errors v), err)
  end.

(** [v.Ads[0].InLine.Creatives[0].Linear.MediaFiles = x]. *)
Definition set_media (v : t) (ad : Ad.t) (ads : list Ad.t) (inline : InLine.t)
           (c : Creative.t) (cs : list Creative.t) (linear : Linear.t)
           (x : list MediaFile.t) : t :=
  mk (Version v)
     (Ad.mk (Ad.ID ad) (Ad.Sequence ad)
        (Some (InLine.set_Creatives
                 (Creative.set_Linear (Some (Linear.set_MediaFiles x linear)) c :: cs)
                 inline))
        (Ad.Wrapper ad) :: ads)
     (Errors v).

(** The common prologue of the two filters: the guard on [InLine], then
    the evaluation of [v.Ads[0].InLine.Creatives[0].Linear.MediaFiles];
    [k] continues with the media files and the way to store them back. *)
Definition with_media (v : t)
           (k : list MediaFile.t -> (list MediaFile.t -> t) -> outcome t) : outcome t :=
  match Ads v with
  | [] => Panicked IndexOutOfRange
  | ad :: ads =>
      match Ad.InLine ad with
      | None => Returned v (errors_New "not inline")
      | Some inline =>
          match InLine.Creatives inline with
          | [] => Panicked IndexOutOfRange
          | c :: cs =>
              match Creative.Linear c with
              | None => Panicked NilDereference
              | Some linear =>
                  k (Linear.MediaFiles linear) (set_media v ad ads inline c cs linear)
              end
          end
      end
  end.

Definition format_body (f : string) (m : MediaFile.t) (st : shared MediaFile.t)
  : shared MediaFile.t :=
  if String.eqb (MediaFile.Type_ m) f then append st m else st.

Definition format_pass (f : string) (st : shared MediaFile.t) : shared MediaFile.t :=
  range (format_body f) st.

(** The nested loops of [FilterFormat]: every pass over the media files
    reads the array the earlier passes have appended into. *)
Definition format_loop (format : list string) (files : list MediaFile.t) : shared MediaFile.t :=
  fold_left (fun st f => format_pass f st) format (alias files).

Definition FilterFormat (format : list string) (v : t) : outcome t :=
  with_media v (fun files store_back =>
    let st := format_loop format files in
    match out st with
    | [] => Returned (store_back (store st)) (errors_New "empty media by format")
    | media => Returned (store_back media) None
    end).

Definition size_body (w h : Z) (m : MediaFile.t) (st : shared MediaFile.t) : shared MediaFile.t :=
  let st :=
    if (int_sub w h >? 0) && (int_sub (MediaFile.Width m) (MediaFile.Height m) >? 0)
    then append st m else st in
  let st :=
    if (int_sub w h <? 0) && (int_sub (MediaFile.Width m) (MediaFile.Height m) <? 0)
    then append st m else st in
  st.

(** [math.Abs(q1*100/q - 100.0)] for the media file [m]. *)
Definition deviation (w h : Z) (m : MediaFile.t) : float64.t :=
  let q1 := float64.of_int (int_mul (MediaFile.Width m) (MediaFile.Height m)) in
  let q := float64.of_int (int_mul w h) in
  float64.Abs
    (float64.sub (float64.div (float64.mul q1 (float64.of_int 100)) q) (float64.of_int 100)).

Definition better (w h : Z) (best m : MediaFile.t) : MediaFile.t :=
  if float64.lt (deviation w h m) (deviation w h best) then m else best.

Definition FilterSize (w h : Z) (v : t) : outcome t :=
  with_media v (fun files store_back =>
    let st := range (size_body w h) (alias files) in
    match out st with
    | [] => Returned (store_back (store st)) (errors_New "empty media by size")
    | first :: _ =>
        let best := fold_left (better w h) (out st) first in
        Returned (store_back [MediaFile.set_size w h best]) None
    end).
(** *** The assembly methods *)

Definition set_first (v : t) (ad : Ad.t) (ads : list Ad.t) : t :=
  mk (Version v) (ad :: ads) (Errors v).

Definition SetDisplayManager (info : DisplayManage.t) (v : t) : effect t :=
  match Ads v with
  | [] => Panics IndexOutOfRange
  | ad :: ads =>
      let system := Some (AdSystem.mk (DisplayManage.Ver info) (DisplayManage.Name info)) in
      match Ad.Wrapper ad with
      | Some wrap =>
          Done (set_first v (Update.Ad_Wrapper (Update.Wrapper_AdSystem system wrap) ad) ads)
      | None =>
          match Ad.InLine ad with
          | Some inline =>
              let inline := Update.InLine_AdSystem system inline in
              let inline := Update.InLine_Advertiser (DisplayManage.Title info) inline in
              Done (set_first v (Update.Ad_InLine inline ad) ads)
          | None => Done v
          end
      end
  end.

Definition AddError (err : list CDATAString.t) (v : t) : effect t :=
  Done (mk (Version v) (Ads v) (Errors v ++ err)%list).

Definition track_wrapper (tracking : list Tracking.t) (c : CreativeWrapper.t)
  : CreativeWrapper.t :=
  match CreativeWrapper.Linear c with
  | Some linear =>
      CreativeWrapper.mk (CreativeWrapper.ID c) (CreativeWrapper.Sequence c)
        (CreativeWrapper.AdID c)
        (Some (LinearWrapper.mk (LinearWrapper.Icons linear)
                 (LinearWrapper.TrackingEvents linear ++ tracking)%list
                 (LinearWrapper.VideoClicks linear)))
        (CreativeWrapper.CompanionAds c) (CreativeWrapper.NonLinearAds c)
  | None =>
      match CreativeWrapper.NonLinearAds c with
      | Some nonlinear =>
          CreativeWrapper.mk (CreativeWrapper.ID c) (CreativeWrapper.Sequence c)
            (CreativeWrapper.AdID c) (CreativeWrapper.Linear c) (CreativeWrapper.CompanionAds c)
            (Some (NonLinearAdsWrapper.mk
                     (NonLinearAdsWrapper.TrackingEvents nonlinear ++ tracking)%list
                     (NonLinearAdsWrapper.NonLinears nonlinear)))
      | None => c
      end
  end.

Definition track_creative (tracking : list Tracking.t) (c : Creative.t) : Creative.t :=
  match Creative.Linear c with
  | Some linear =>
      Creative.set_Linear
        (Some (Linear.set_TrackingEvents (Linear.TrackingEvents linear ++ tracking)%list linear)) c
  | None =>
      match Creative.NonLinearAds c with
      | Some nonlinear =>
          Creative.set_NonLinearAds
            (Some (Update.NonLinearAds_TrackingEvents
                     (NonLinearAds.TrackingEvents nonlinear ++ tracking)%list nonlinear)) c
      | None => c
      end
  end.

Definition AddTracking (tracking : list Tracking.t) (v : t) : effect t :=
  match Ads v with
  | [] => Panics IndexOutOfRange
  | ad :: ads =>
      match Ad.Wrapper ad with
      | Some wrap =>
          let wrap :=
            Update.Wrapper_Creatives (map (track_wrapper tracking) (Wrapper.Creatives wrap)) wrap in
          Done (set_first v (Update.Ad_Wrapper wrap ad) ads)
      | None =>
          match Ad.InLine ad with
          | Some inline =>
              let inline :=
                InLine.set_Creatives (map (track_creative tracking) (InLine.Creatives inline))
                  inline in
              Done (set_first v (Update.Ad_InLine inline ad) ads)
          | None => Done v
          end
      end
  end.

(** The body of the loops of [AddClickTracking] and [SetClickThrough]:
    [c.Linear.VideoClicks] is dereferenced without a test. *)
Definition on_clicks (f : VideoClicks.t -> VideoClicks.t) (c : Creative.t) : effect Creative.t :=
  match Creative.Linear c with
  | Some linear =>
      match Linear.VideoClicks linear with
      | None => Panics NilDereference
      | Some clicks =>
          Done (Creative.set_Linear (Some (Linear.set_VideoClicks (Some (f clicks)) linear)) c)
      end
  | None => Done c
  end.

Definition AddClickTracking (tracking : list VideoClick.t) (v : t) : effect t :=
  match Ads v with
  | [] => Panics IndexOutOfRange
  | ad :: ads =>
      match Ad.Wrapper ad with
      | Some _ => Done v
      | None =>
          match Ad.InLine ad with
          | Some inline =>
              match visit (on_clicks (fun clicks =>
                             Update.ClickTrackings
                               (VideoClicks.ClickTrackings clicks ++ tracking)%list clicks))
                          (InLine.Creatives inline) with
              | Panics p => Panics p
              | Done creatives =>
                  Done (set_first v (Update.Ad_InLine (InLine.set_Creatives creatives inline) ad)
                          ads)
              end
          | None => Done v
          end
      end
  end.

Definition AddImpression (tracking : list Impression.t) (v : t) : effect t :=
  match Ads v with
  | [] => Panics IndexOutOfRange
  | ad :: ads =>
      match Ad.Wrapper ad with
      | Some wrap =>
          let wrap := Wrapper.set_Impressions (Wrapper.Impressions wrap ++ tracking)%list wrap in
          Done (set_first v (Update.Ad_Wrapper wrap ad) ads)
      | None =>
          match Ad.InLine ad with
          | Some inline =>
              let inline :=
                InLine.set_Impressions (InLine.Impressions inline ++ tracking)%list inline in
              Done (set_first v (Update.Ad_InLine inline ad) ads)
          | None => Done v
          end
      end
  end.

Definition AddViewable (tracking : list Viewable.t) (v : t) : effect t :=
  match Ads v with
  | [] => Panics IndexOutOfRange
  | ad :: ads =>
      match Ad.Wrapper ad with
      | Some wrap =>
          let wrap :=
            Wrapper.set_ViewableImpression (Wrapper.ViewableImpression wrap ++ tracking)%list
              wrap in
          Done (set_first v (Update.Ad_Wrapper wrap ad) ads)
      | None =>
          match Ad.InLine ad with
          | Some inline =>
              let inline :=
                InLine.set_ViewableImpression
                  (InLine.ViewableImpression inline ++ tracking)%list inline in
              Done (set_first v (Update.Ad_InLine inline ad) ads)
          | None => Done v
          end
      end
  end.

Definition ClearExtention (v : t) : effect t :=
  match Ads v with
  | [] => Panics IndexOutOfRange
  | ad :: ads =>
      match Ad.Wrapper ad with
      | Some wrap =>
          Done (set_first v (Update.Ad_Wrapper (Update.Wrapper_Extensions [] wrap) ad) ads)
      | None =>
          match Ad.InLine ad with
          | Some inline =>
              Done (set_first v (Update.Ad_InLine (Update.InLine_Extensions [] inline) ad) ads)
          | None => Done v
          end
      end
  end.

(** One iteration of the loop of [AddExtention] for an Extension with a
    type: [v.Ads[0]] is evaluated here, not before the loop. *)
Definition add_extension (ext : Extension.t) (v : t) : effect t :=
  match Ads v with
  | [] => Panics IndexOutOfRange
  | ad :: ads =>
      match Ad.Wrapper ad with
      | Some wrap =>
          let wrap := Update.Wrapper_Extensions (Wrapper.Extensions wrap ++ [ext])%list wrap in
          Done (set_first v (Update.Ad_Wrapper wrap ad) ads)
      | None =>
          match Ad.InLine ad with
          | Some inline =>
              let inline :=
                Update.InLine_Extensions (InLine.Extensions inline ++ [ext])%list inline in
              Done (set_first v (Update.Ad_InLine inline ad) ads)
          | None => Done v
          end
      end
  end.

Fixpoint AddExtention (exts : list Extension.t) (v : t) : effect t :=
  match exts with
  | [] => Done v
  | ext :: rest =>
      if String.eqb (Extension.Type_ ext) "" then AddExtention rest v
      else
        match add_extension ext v with
        | Panics p => Panics p
        | Done v' => AddExtention rest v'
        end
  end.

Definition SetClickThrough (tracking : VideoClick.t) (v : t) : effect t :=
  match Ads v with
  | [] => Panics IndexOutOfRange
  | ad :: ads =>
      match Ad.InLine ad with
      | Some inline =>
          match visit (on_clicks (Update.ClickThroughs [tracking])) (InLine.Creatives inline) with
          | Panics p => Panics p
          | Done creatives =>
              Done (set_first v (Update.Ad_InLine (InLine.set_Creatives creatives inline) ad) ads)
          end
      | None => Done v
      end
  end.
End VAST.

(** ** Specification-side predicates

    What the statements below compare the code with: the functional reading
    of each pass, written without loops, early returns or shared arrays. *)

Definition ok (e : error) : bool := match e with None => true | Some _ => false end.

Module Valid.
Definition media (m : MediaFile.t) : bool :=
  nonempty (MediaFile.URI m) && nonempty (MediaFile.Type_ m)
  && negb (MediaFile.Width m =? 0) && negb (MediaFile.Height m =? 0).

(** A tracking entry survives the filter and then fails [Tracking.Validate]
    when it has a URI and no event name. *)
Definition tracking (t0 : Tracking.t) : bool :=
  negb (nonempty (Tracking.URI t0)) || nonempty (Tracking.Event t0).

Definition linear (l : Linear.t) : bool :=
  (0 <? length (Linear.MediaFiles l))%nat
  && forallb media (Linear.MediaFiles l)
  && forallb tracking (Linear.TrackingEvents l).

Definition creative (c : Creative.t) : bool :=
  match Creative.Linear c, Creative.NonLinearAds c with
  | Some l, _ => linear l
  | None, Some _ => true
  | None, None => false
  end.

Definition inline (i : InLine.t) : bool :=
  (0 <? length (InLine.Creatives i))%nat && forallb creative (InLine.Creatives i).

Definition ad (a : Ad.t) : bool :=
  match Ad.Wrapper a, Ad.InLine a with
  | Some _, _ => true
  | None, Some i => inline i
  | None, None => false
  end.

Definition vast (v : VAST.t) : bool :=
  (0 <? length (VAST.Ads v))%nat && forallb ad (VAST.Ads v).
End Valid.

(** A Wrapper with the empty-URI impressions and viewable impressions
    removed and nothing else changed. *)
Definition pruned_wrapper (w : Wrapper.t) : Wrapper.t :=
  Wrapper.set_ViewableImpression
    (List.filter (fun i => nonempty (Viewable.URI i)) (Wrapper.ViewableImpression w))
    (Wrapper.set_Impressions
       (List.filter (fun i => nonempty (Impression.URI i)) (Wrapper.Impressions w)) w).

Definition pruned_ad (a : Ad.t) : Ad.t :=
  Ad.mk (Ad.ID a) (Ad.Sequence a) (Ad.InLine a) (pruned_wrapper <$> Ad.Wrapper a).

(** Sample values used by the concrete instances. *)
Module Sample.
Definition media (w h : Z) (type uri : string) : MediaFile.t :=
  MediaFile.mk "" "progressive" type "" 0 0 0 w h false false "" uri.
Definition linear (tracking : list Tracking.t) (files : list MediaFile.t) : Linear.t :=
  Linear.mk None "00:00:30" None None tracking None files.
Definition creative (l : option Linear.t) : Creative.t :=
  Creative.mk "" 0 "" "" l None None.
Definition cdata (s : string) : CDATAString.t := CDATAString.mk s.
Definition inline (imps : list Impression.t) (errs : list CDATAString.t)
           (creatives : list Creative.t) : InLine.t :=
  InLine.mk None (cdata "ad") imps [] creatives (cdata "") "" (cdata "") errs "" [].
Definition wrapper (imps : list Impression.t) (creatives : list CreativeWrapper.t) : Wrapper.t :=
  Wrapper.mk None (cdata "") imps [] [] creatives [] None None None.
Definition inline_ad (i : InLine.t) : Ad.t := Ad.mk "" 0 (Some i) None.
Definition wrapper_ad (w : Wrapper.t) : Ad.t := Ad.mk "" 0 None (Some w).
Definition doc (ads : list Ad.t) : VAST.t := VAST.mk "3.0" ads [].
(** A document with one InLine ad, one Linear creative and these files. *)
Definition media_doc (files : list MediaFile.t) : VAST.t :=
  doc [inline_ad (inline [] [] [creative (Some (linear [] files))])].
End Sample.

(** The orientation test of [FilterSize]: the wrapped difference of the
    target and that of the media file are both positive or both negative. *)
Definition same_orientation (w h : Z) (m : MediaFile.t) : bool :=
  let target := int_sub w h in
  let own := int_sub (MediaFile.Width m) (MediaFile.Height m) in
  (Z.sgn own =? Z.sgn target) && negb (Z.sgn target =? 0).

(** The exact value of [|area * 100 / target - 100|], scaled by the target
    area: what the deviation would be without rounding. *)
Definition exact_deviation_scaled (w h : Z) (m : MediaFile.t) : Z :=
  Z.abs (MediaFile.Width m * MediaFile.Height m * 100 - 100 * (w * h)).

(** The deviation as the specification writes it,
    [|area_candidate / area_target * 100 - 100|], evaluated in [float64]; the
    code multiplies before it divides. *)
Definition spec_deviation (w h : Z) (m : MediaFile.t) : float64.t :=
  let q1 := float64.of_int (MediaFile.Width m * MediaFile.Height m) in
  let q := float64.of_int (w * h) in
  float64.Abs
    (float64.sub (float64.mul (float64.div q1 q) (float64.of_int 100)) (float64.of_int 100)).

(** [b] is the running best of the candidates [seen] so far: the ones
    before it are not within its deviation, the ones behind it are not
    strictly closer. *)
Definition running_best (w h : Z) (seen : list MediaFile.t) (b : MediaFile.t) : Prop :=
  exists before behind,
    seen = (before ++ b :: behind)%list /\
    (forall m, In m before ->
               float64.le (VAST.deviation w h m) (VAST.deviation w h b) = false) /\
    (forall m, In m behind ->
               float64.lt (VAST.deviation w h m) (VAST.deviation w h b) = false).

(** The media files whose type is [f]. *)
Definition of_format (f : string) (files : list MediaFile.t) : list MediaFile.t :=
  List.filter (fun m => String.eqb (MediaFile.Type_ m) f) files.

(** The click lists without their empty-URI entries. *)
Definition pruned_clicks (c : VideoClicks.t) : VideoClicks.t :=
  let keep := List.filter (fun x => nonempty (VideoClick.URI x)) in
  VideoClicks.mk (keep (VideoClicks.ClickThroughs c)) (keep (VideoClicks.ClickTrackings c))
    (keep (VideoClicks.CustomClicks c)).

(** A Linear after a successful [Validate]. *)
Definition pruned_linear (l : Linear.t) : Linear.t :=
  Linear.mk (Linear.SkipOffset l) (Linear.Duration l) (Linear.AdParameters l) (Linear.Icons l)
    (List.filter (fun x => nonempty (Tracking.URI x)) (Linear.TrackingEvents l))
    (pruned_clicks <$> Linear.VideoClicks l) (Linear.MediaFiles l).

(** Every URI of the list begins with the scheme of [secure]. *)
Definition secured {A : Type} (uri : A -> string) (secure : bool) (l : list A) : Prop :=
  Forall (fun x => String.prefix (scheme secure) (uri x) = true) l.

(** The Extensions of the first Ad, read from its Wrapper if it has one. *)
Definition first_extensions (v : VAST.t) : option (list Extension.t) :=
  match VAST.Ads v with
  | [] => None
  | ad :: _ =>
      match Ad.Wrapper ad, Ad.InLine ad with
      | Some w, _ => Some (Wrapper.Extensions w)
      | None, Some i => Some (InLine.Extensions i)
      | None, None => None
      end
  end.

(** The Impressions of the first Ad, read the same way. *)
Definition first_impressions (v : VAST.t) : option (list Impression.t) :=
  match VAST.Ads v with
  | [] => None
  | ad :: _ =>
      match Ad.Wrapper ad, Ad.InLine ad with
      | Some w, _ => Some (Wrapper.Impressions w)
      | None, Some i => Some (InLine.Impressions i)
      | None, None => None
      end
  end.

(** Every Linear creative has a [VideoClicks]. *)
Definition clickable (c : Creative.t) : bool :=
  match Creative.Linear c with
  | Some l => match Linear.VideoClicks l with Some _ => true | None => false end
  | None => true
  end.

(** What the shared array and the result of [FilterFormat] can hold at any
    time: media files of the original list, and in the result only files of
    a requested type. *)
Definition format_invariant (files : list MediaFile.t) (format : list string)
           (st : shared MediaFile.t) : Prop :=
  Forall (fun m => In m files) (store st) /\
  Forall (fun m => In m files /\ In (MediaFile.Type_ m) format) (out st).

(** What holds of a document that [Validate] has accepted and filtered:
    as [Valid], with every remaining tracking event named. *)
Module Strict.
Definition tracking (t0 : Tracking.t) : bool := nonempty (Tracking.Event t0).

Definition linear (l : Linear.t) : bool :=
  (0 <? length (Linear.MediaFiles l))%nat
  && forallb Valid.media (Linear.MediaFiles l)
  && forallb tracking (Linear.TrackingEvents l).

Definition creative (c : Creative.t) : bool :=
  match Creative.Linear c, Creative.NonLinearAds c with
  | Some l, _ => linear l
  | None, Some _ => true
  | None, None => false
  end.

Definition inline (i : InLine.t) : bool :=
  (0 <? length (InLine.Creatives i))%nat && forallb creative (InLine.Creatives i).

Definition ad (a : Ad.t) : bool :=
  match Ad.Wrapper a, Ad.InLine a with
  | Some _, _ => true
  | None, Some i => inline i
  | None, None => false
  end.

Definition vast (v : VAST.t) : bool :=
  (0 <? length (VAST.Ads v))%nat && forallb ad (VAST.Ads v).
End Strict.

(** * Properties *)

(** ** In-place filtering reads every element before it is overwritten *)

Section SharedFacts.
Context {A : Type}.
Implicit Types (s : list A) (st : shared A).

Lemma range_from_ext (f g : A -> shared A -> shared A) :
  (forall m st, f m st = g m st) ->
  forall count i st, range_from f count i st = range_from g count i st.
Proof.
  intros Hfg count. induction count as [|c IH]; intros i st; simpl; [reflexivity|].
  destruct (store st !! i); [|reflexivity]. rewrite Hfg. apply IH.
Qed.

(** While the write position has not overtaken the read position, a loop
    of the idiom appends exactly what a functional filter produces. *)
Lemma range_from_keep (keep : A -> option A) s :
  forall count i st,
    length (store st) = length s ->
    (length (out st) <= i)%nat ->
    (forall j, (i <= j)%nat -> store st !! j = s !! j) ->
    count = (length s - i)%nat ->
    range_from (keep_body keep) count i st
    = fold_left append (omap keep (drop i s)) st.
Proof.
  induction count as [|c IH]; intros i st Hlen Hout Hsuf Hc.
  - rewrite drop_ge by lia. reflexivity.
  - simpl. assert (Hi : (i < length s)%nat) by lia.
    destruct (lookup_lt_is_Some_2 s i Hi) as [m Hm].
    rewrite (Hsuf i) by lia. rewrite Hm.
    rewrite (drop_S s m i Hm). simpl. unfold keep_body at 2.
    destruct (keep m) as [y|]; simpl.
    + apply IH; simpl.
      * rewrite length_insert. exact Hlen.
      * rewrite length_app. simpl. lia.
      * intros j Hj. rewrite list_lookup_insert_ne by lia. apply Hsuf. lia.
      * lia.
    + apply IH; auto with lia.
Qed.

Lemma out_fold_append (l : list A) : forall st, out (fold_left append l st) = (out st ++ l)%list.
Proof.
  induction l as [|x l IH]; intros st; simpl.
  - rewrite app_nil_r. reflexivity.
  - rewrite IH. simpl. rewrite <- app_assoc. reflexivity.
Qed.

Lemma range_keep_alias (keep : A -> option A) s :
  range (keep_body keep) (alias s) = fold_left append (omap keep s) (alias s).
Proof.
  unfold range. simpl.
  rewrite (range_from_keep keep s (length s) 0 (alias s)); simpl; auto with lia.
Qed.

(** The in-place idiom is the functional filter-and-map. *)
Lemma filter_in_place_omap (keep : A -> option A) s :
  filter_in_place keep s = omap keep s.
Proof.
  unfold filter_in_place.
  rewrite range_keep_alias, out_fold_append. reflexivity.
Qed.
End SharedFacts.

(** ** [SecureUrl] *)

Section SecureUrlFacts.
Import Strings.
#[local] Arguments String.append !s1 s2 : simpl nomatch.

Lemma prefix_nil s : String.prefix "" s = true.
Proof. destruct s; reflexivity. Qed.

Lemma prefix_app p s : String.prefix p (p +:+ s) = true.
Proof.
  induction p as [|c p IH]; simpl; [apply prefix_nil|].
  destruct (ascii_dec c c); [exact IH|congruence].
Qed.

Lemma replace_from_cons c s old new :
  replace_from old new 0 (String c s)
  = if String.prefix old (String c s)
    then new +:+ replace_from old new (String.length old - 1) s
    else String c (replace_from old new 0 s).
Proof. reflexivity. Qed.

Lemma append_inv_head p a b : p +:+ a = p +:+ b -> a = b.
Proof. induction p as [|c p IH]; simpl; [auto|]. intros H. apply IH. congruence. Qed.

Lemma Replace_cons_ne c s old new :
  String.prefix old (String c s) = false ->
  Replace (String c s) old new = String c (Replace s old new).
Proof. unfold Replace. rewrite replace_from_cons. intros ->. reflexivity. Qed.

Lemma replace_from_skip old new p s :
  replace_from old new (String.length p) (p +:+ s) = replace_from old new 0 s.
Proof. induction p as [|c p IH]; simpl; [reflexivity|exact IH]. Qed.

(** At an occurrence of [old] the replacement is emitted and the scan
    resumes behind the occurrence. *)
Lemma Replace_app_old c old new s :
  Replace (String c old +:+ s) (String c old) new = new +:+ Replace s (String c old) new.
Proof.
  unfold Replace. change (String c old +:+ s) with (String c (old +:+ s)).
  rewrite replace_from_cons.
  change (String c (old +:+ s)) with (String c old +:+ s).
  rewrite (prefix_app (String c old) s).
  replace (String.length (String c old) - 1)%nat with (String.length old)
    by (simpl; lia).
  rewrite replace_from_skip. reflexivity.
Qed.

Lemma Replace_absent s old new :
  Contains s old = false -> Replace s old new = s.
Proof.
  unfold Replace. induction s as [|c s IH]; intros H; [reflexivity|].
  change (Contains (String c s) old)
    with (String.prefix old (String c s) || Contains s old) in H.
  apply orb_false_elim in H as [Hp Hc].
  rewrite replace_from_cons, Hp, (IH Hc). reflexivity.
Qed.

(** Removing a one-byte pattern deletes every such byte. *)
Lemma Replace_byte c s : Replace s (String c "") "" = delete_byte c s.
Proof.
  unfold Replace. induction s as [|a s IH]; [reflexivity|].
  rewrite replace_from_cons. simpl.
  destruct (ascii_dec c a) as [->|Hne].
  - rewrite prefix_nil. exact IH.
  - rewrite IH. reflexivity.
Qed.

Lemma delete_byte_comm a b s :
  delete_byte a (delete_byte b s) = delete_byte b (delete_byte a s).
Proof.
  induction s as [|c s IH]; [reflexivity|]. simpl.
  destruct (ascii_dec b c), (ascii_dec a c); simpl;
    repeat match goal with |- context [ascii_dec ?x ?y] => destruct (ascii_dec x y) end;
    congruence.
Qed.

Lemma delete_byte_idem a s : delete_byte a (delete_byte a s) = delete_byte a s.
Proof.
  induction s as [|c s IH]; [reflexivity|]. simpl.
  destruct (ascii_dec a c) as [|Hne]; [exact IH|].
  simpl. destruct (ascii_dec a c); [contradiction|]. rewrite IH. reflexivity.
Qed.

Lemma strip_space_bytes s :
  strip_space s = delete_byte " " (delete_byte (byte 9) (delete_byte (byte 10) s)).
Proof. unfold strip_space, bytes. simpl map. simpl string_of_list_ascii.
       rewrite !Replace_byte. reflexivity. Qed.

Lemma strip_space_idem s : strip_space (strip_space s) = strip_space s.
Proof.
  rewrite !strip_space_bytes.
  rewrite (delete_byte_comm (byte 10) " ").
  rewrite (delete_byte_comm (byte 10) (byte 9)).
  rewrite delete_byte_idem.
  rewrite (delete_byte_comm (byte 9) " ").
  rewrite !delete_byte_idem. reflexivity.
Qed.

Lemma delete_byte_cons_ne a c s :
  (if ascii_dec a c then true else false) = false ->
  delete_byte a (String c s) = String c (delete_byte a s).
Proof. simpl. destruct (ascii_dec a c); [discriminate|reflexivity]. Qed.

Lemma strip_space_scheme secure s :
  strip_space (scheme secure +:+ s) = scheme secure +:+ strip_space s.
Proof.
  rewrite !strip_space_bytes. destruct secure; simpl scheme; simpl String.append;
    repeat (rewrite delete_byte_cons_ne by reflexivity); reflexivity.
Qed.

(** The result is the scheme followed by the cleaned remainder. *)
Lemma SecureUrl_shape url secure :
  SecureUrl url secure = scheme secure +:+ strip_space (strip_scheme url).
Proof.
  rewrite <- strip_space_scheme. unfold SecureUrl, strip_space, strip_scheme, scheme.
  destruct secure; reflexivity.
Qed.

Lemma strip_scheme_clean secure t :
  Contains t "http:" = false ->
  Contains t "https:" = false ->
  Contains t "//" = false ->
  strip_scheme (scheme secure +:+ t) = t.
Proof.
  intros H1 H2 H3. unfold strip_scheme. destruct secure; simpl scheme.
  - change ("https://" +:+ t) with (String "h" (String "t" (String "t" (String "p"
      (String "s" (String ":" (String "/" (String "/" t)))))))).
    repeat (rewrite (Replace_cons_ne _ _ "http:") by reflexivity).
    rewrite (Replace_absent t "http:") by exact H1.
    change (String "h" (String "t" (String "t" (String "p"
      (String "s" (String ":" (String "/" (String "/" t))))))))
      with ("https:" +:+ String "/" (String "/" t)).
    rewrite Replace_app_old.
    repeat (rewrite (Replace_cons_ne _ _ "https:") by reflexivity).
    rewrite (Replace_absent t "https:") by exact H2.
    change ("" +:+ String "/" (String "/" t)) with ("//" +:+ t).
    rewrite Replace_app_old, (Replace_absent t "//") by exact H3. reflexivity.
  - change ("http://" +:+ t) with ("http:" +:+ String "/" (String "/" t)).
    rewrite Replace_app_old.
    repeat (rewrite (Replace_cons_ne _ _ "http:") by reflexivity).
    rewrite (Replace_absent t "http:") by exact H1.
    change ("" +:+ String "/" (String "/" t)) with (String "/" (String "/" t)).
    repeat (rewrite (Replace_cons_ne _ _ "https:") by reflexivity).
    rewrite (Replace_absent t "https:") by exact H2.
    change (String "/" (String "/" t)) with ("//" +:+ t).
    rewrite Replace_app_old, (Replace_absent t "//") by exact H3. reflexivity.
Qed.
End SecureUrlFacts.

(** C4 (amended).  [SecureUrl(u, true)] always begins with ["https://"] and
    [SecureUrl(u, false)] with ["http://"], whatever [u] is; and applying
    [SecureUrl] a second time with the same flag changes nothing whenever
    the part of the first result behind the scheme contains none of
    ["http:"], ["https:"] and ["//"]. *)
Theorem SecureUrl_scheme_and_idempotence (u : string) (secure : bool) :
  String.prefix "https://" (SecureUrl u true) = true /\
  String.prefix "http://" (SecureUrl u false) = true /\
  (forall t : string,
      SecureUrl u secure = scheme secure +:+ t ->
      Strings.Contains t "http:" = false ->
      Strings.Contains t "https:" = false ->
      Strings.Contains t "//" = false ->
      SecureUrl (SecureUrl u secure) secure = SecureUrl u secure).
Proof.
  split; [|split].
  - rewrite SecureUrl_shape. apply (prefix_app "https://").
  - rewrite SecureUrl_shape. apply (prefix_app "http://").
  - intros t Ht H1 H2 H3.
    assert (Hs : strip_space t = t).
    { rewrite SecureUrl_shape in Ht.
      apply append_inv_head in Ht. subst t.
      apply strip_space_idem. }
    rewrite Ht at 1. rewrite (SecureUrl_shape (scheme secure +:+ t)).
    rewrite strip_scheme_clean by assumption. rewrite Hs. symmetry. exact Ht.
Qed.

Lemma SecureUrl_idempotent_instance :
  SecureUrl (SecureUrl "HTTP://a.com/x y" true) true = SecureUrl "HTTP://a.com/x y" true.
Proof.
  apply (proj2 (proj2 (SecureUrl_scheme_and_idempotence "HTTP://a.com/x y" true))
           "HTTP:a.com/xy"); reflexivity.
Defined.

(** C4 as stated fails: a blank between two slashes survives the removal of
    ["//"], is deleted afterwards, and the second application then removes
    the double slash the first one has produced. *)
Lemma SecureUrl_not_idempotent :
  SecureUrl "http://a.com/x/ /y" true = "https://a.com/x//y" /\
  SecureUrl (SecureUrl "http://a.com/x/ /y" true) true = "https://a.com/xy" /\
  SecureUrl (SecureUrl "http://a.com/x/ /y" true) true <> SecureUrl "http://a.com/x/ /y" true.
Proof.
  split; [vm_compute; reflexivity|]. split; [vm_compute; reflexivity|].
  vm_compute. discriminate.
Qed.

(** ** [Validate] *)

Section EachFacts.
Context {A : Type} (f : A -> A * error) (wrap : nat -> string -> string).

(** A validation loop succeeds exactly when every element validates. *)
Lemma each_from_ok (l : list A) :
  forall i, ok (snd (each_from f wrap i l)) = forallb (fun x => ok (snd (f x))) l.
Proof.
  induction l as [|x l IH]; intros i; simpl; [reflexivity|].
  destruct (f x) as [x' [msg|]]; simpl; [reflexivity|].
  specialize (IH (S i)). destruct (each_from f wrap (S i) l). exact IH.
Qed.

(** When it succeeds, every element has been visited. *)
Lemma each_from_fst (l : list A) :
  forall i, forallb (fun x => ok (snd (f x))) l = true ->
            each_from f wrap i l = (map (fun x => fst (f x)) l, None).
Proof.
  induction l as [|x l IH]; intros i H; simpl in *; [reflexivity|].
  apply andb_prop in H as [Hx Hl].
  destruct (f x) as [x' [msg|]]; simpl in *; [discriminate|].
  rewrite (IH (S i) Hl). reflexivity.
Qed.
End EachFacts.

Lemma forallb_pointwise {A} (f g : A -> bool) (l : list A) :
  (forall x, f x = g x) -> forallb f l = forallb g l.
Proof. intros H. induction l as [|x l IH]; simpl; [reflexivity|]. rewrite H, IH. reflexivity. Qed.

Lemma nonempty_eqb s : String.eqb s "" = negb (nonempty s).
Proof. unfold nonempty. rewrite negb_involutive. reflexivity. Qed.

Lemma MediaFile_Validate_ok m : ok (MediaFile.Validate m) = Valid.media m.
Proof.
  unfold MediaFile.Validate, Valid.media. rewrite !nonempty_eqb.
  destruct (nonempty (MediaFile.URI m)), (nonempty (MediaFile.Type_ m)),
    (MediaFile.Width m =? 0), (MediaFile.Height m =? 0); reflexivity.
Qed.

Lemma tracking_pass_ok (l : list Tracking.t) wrap :
  ok (snd (each (fun t0 => (t0, Tracking.Validate t0)) wrap (filter_in_place Linear.keep l)))
  = forallb Valid.tracking l.
Proof.
  unfold each. rewrite each_from_ok, filter_in_place_omap.
  induction l as [|t0 l IH]; [reflexivity|].
  cbn [omap list_omap forallb]. unfold Linear.keep at 1, Valid.tracking at 1.
  destruct (nonempty (Tracking.URI t0)); cbn [negb orb forallb snd].
  - cbn [snd] in IH. rewrite IH. unfold Tracking.Validate. rewrite nonempty_eqb.
    destruct (nonempty (Tracking.Event t0)); reflexivity.
  - exact IH.
Qed.

Lemma Linear_Validate_ok l : ok (snd (Linear.Validate l)) = Valid.linear l.
Proof.
  unfold Linear.Validate, Valid.linear.
  destruct (Linear.MediaFiles l) as [|m ms] eqn:Hm; [reflexivity|].
  change (0 <? length (m :: ms))%nat with true. rewrite andb_true_l.
  pose proof (each_from_ok (fun m0 => (m0, MediaFile.Validate m0))
                (fun i msg => "bad media[" +:+ fmt_d i +:+ "] " +:+ msg) (m :: ms) 0) as Hmedia.
  unfold each.
  destruct (each_from _ _ 0 (m :: ms)) as [ms' [msg|]]; simpl in Hmedia.
  - rewrite <- (forallb_pointwise _ _ _ MediaFile_Validate_ok).
    simpl. simpl in Hmedia. rewrite <- Hmedia. reflexivity.
  - rewrite <- (forallb_pointwise _ _ _ MediaFile_Validate_ok).
    simpl in Hmedia. simpl forallb at 1. rewrite <- Hmedia. rewrite andb_true_l.
    pose proof (tracking_pass_ok (Linear.TrackingEvents l)
                  (fun i msg => "bad track[" +:+ fmt_d i +:+ "] " +:+ msg)) as Htrack.
    unfold each in Htrack. simpl Linear.TrackingEvents.
    destruct (each_from _ _ 0 (filter_in_place Linear.keep (Linear.TrackingEvents l)))
      as [ts' [msg|]]; simpl in Htrack; [exact Htrack|].
    rewrite <- Htrack. simpl. destruct (Linear.VideoClicks l); reflexivity.
Qed.

Lemma Creative_Validate_ok c : ok (snd (Creative.Validate c)) = Valid.creative c.
Proof.
  unfold Creative.Validate, Valid.creative.
  destruct (Creative.Linear c) as [l|].
  - rewrite <- Linear_Validate_ok. destruct (Linear.Validate l). reflexivity.
  - destruct (Creative.NonLinearAds c); reflexivity.
Qed.

Lemma InLine_Validate_ok i : ok (snd (InLine.Validate i)) = Valid.inline i.
Proof.
  unfold InLine.Validate, Valid.inline.
  destruct (InLine.Creatives i) as [|c cs]; [reflexivity|].
  change (0 <? length (c :: cs))%nat with true. rewrite andb_true_l.
  rewrite <- (forallb_pointwise _ _ _ Creative_Validate_ok).
  rewrite <- (each_from_ok Creative.Validate
                (fun i msg => "bad creative[" +:+ fmt_d i +:+ "] " +:+ msg) (c :: cs) 0).
  unfold each. destruct (each_from _ _ 0 (c :: cs)) as [cs' [msg|]]; reflexivity.
Qed.

Lemma omap_filter {A} (p : A -> bool) (l : list A) :
  omap (fun x => if p x then Some x else None) l = List.filter p l.
Proof.
  induction l as [|x l IH]; [reflexivity|].
  cbn [omap list_omap List.filter]. destruct (p x); rewrite <- IH; reflexivity.
Qed.

Lemma Wrapper_Validate_pruned w : Wrapper.Validate w = (pruned_wrapper w, None).
Proof.
  unfold Wrapper.Validate, pruned_wrapper. rewrite !filter_in_place_omap.
  unfold Wrapper.keepImp, Wrapper.keepVImp.
  rewrite (omap_filter (fun i => nonempty (Impression.URI i))).
  cbn [Wrapper.ViewableImpression Wrapper.set_Impressions].
  rewrite (omap_filter (fun i => nonempty (Viewable.URI i))). reflexivity.
Qed.

Lemma Ad_Validate_ok a : ok (snd (Ad.Validate a)) = Valid.ad a.
Proof.
  unfold Ad.Validate, Valid.ad. destruct (Ad.Wrapper a) as [w|].
  - rewrite Wrapper_Validate_pruned. reflexivity.
  - destruct (Ad.InLine a) as [i|]; [|reflexivity].
    rewrite <- InLine_Validate_ok. destruct (InLine.Validate i). reflexivity.
Qed.

Lemma VAST_Validate_ok v : ok (snd (VAST.Validate v)) = Valid.vast v.
Proof.
  unfold VAST.Validate, Valid.vast.
  destruct (VAST.Ads v) as [|a ads]; [reflexivity|].
  change (0 <? length (a :: ads))%nat with true. rewrite andb_true_l.
  rewrite <- (forallb_pointwise _ _ _ Ad_Validate_ok).
  rewrite <- (each_from_ok Ad.Validate
                (fun i msg => "bad ad[" +:+ fmt_d i +:+ "] " +:+ msg) (a :: ads) 0).
  unfold each. destruct (each_from _ _ 0 (a :: ads)) as [ads' e]. reflexivity.
Qed.

Lemma ok_None (e : error) : ok e = true <-> e = None.
Proof. destruct e; simpl; split; congruence. Qed.

(** C3 (amended).  [VAST.Validate] returns no error exactly for the
    documents with at least one Ad in which every Ad has a Wrapper or,
    failing that, an InLine with at least one Creative, each Creative having
    either a Linear with at least one MediaFile, all of whose MediaFiles
    pass [MediaFile.Validate] and none of whose tracking events has a URI
    but no event name, or no Linear and a NonLinearAds. *)
Theorem Validate_no_error_iff (v : VAST.t) :
  snd (VAST.Validate v) = None <-> Valid.vast v = true.
Proof. rewrite <- VAST_Validate_ok. symmetry. apply ok_None. Qed.

Lemma Validate_no_error_instance :
  snd (VAST.Validate
         (Sample.media_doc [Sample.media 640 360 "video/mp4" "http://a.com/v.mp4"])) = None.
Proof.
  apply (proj2 (Validate_no_error_iff
                  (Sample.media_doc [Sample.media 640 360 "video/mp4" "http://a.com/v.mp4"]))).
  reflexivity.
Defined.

(** C3 as stated fails: the only Ad of this document is an InLine whose
    only Creative has exactly one MediaFile, which passes
    [MediaFile.Validate]; the document is rejected because of a tracking
    event that has a URI and no event name. *)
Lemma Validate_rejects_valid_media :
  let m := Sample.media 640 360 "video/mp4" "http://a.com/v.mp4" in
  let l := Sample.linear [Tracking.mk "" None "http://a.com/t"] [m] in
  let v := Sample.doc [Sample.inline_ad (Sample.inline [] [] [Sample.creative (Some l)])] in
  MediaFile.Validate m = None /\
  Linear.MediaFiles l = [m] /\
  snd (VAST.Validate v) = Some "bad ad[0] bad creative[0] bad track[0] empty event".
Proof. repeat split; vm_compute; reflexivity. Qed.

(** The same with a second, invalid MediaFile next to the valid one. *)
Lemma Validate_rejects_second_media :
  let m := Sample.media 640 360 "video/mp4" "http://a.com/v.mp4" in
  let v := Sample.media_doc [m; Sample.media 640 360 "video/mp4" ""] in
  MediaFile.Validate m = None /\
  snd (VAST.Validate v) = Some "bad ad[0] bad creative[0] bad media[1] empty uri".
Proof. repeat split; vm_compute; reflexivity. Qed.

Lemma Ad_Validate_wrapper a :
  Ad.Wrapper a <> None -> Ad.Validate a = (pruned_ad a, None).
Proof.
  unfold Ad.Validate, pruned_ad. destruct (Ad.Wrapper a) as [w|]; [|congruence].
  intros _. rewrite Wrapper_Validate_pruned. reflexivity.
Qed.

(** C10.  [Wrapper.Validate] returns [nil] for every Wrapper; hence a
    document with at least one Ad, all of whose Ads have a Wrapper, passes
    [VAST.Validate], and the only change is that the Wrappers lose their
    empty-URI Impressions and ViewableImpressions. *)
Theorem Wrapper_documents_validate :
  (forall w : Wrapper.t, Wrapper.Validate w = (pruned_wrapper w, None)) /\
  (forall v : VAST.t,
      VAST.Ads v <> [] ->
      (forall a, In a (VAST.Ads v) -> Ad.Wrapper a <> None) ->
      VAST.Validate v
      = (VAST.mk (VAST.Version v) (map pruned_ad (VAST.Ads v)) (VAST.Errors v), None)).
Proof.
  split; [exact Wrapper_Validate_pruned|].
  intros v Hne Hw. unfold VAST.Validate.
  destruct (VAST.Ads v) as [|a ads] eqn:Hads; [congruence|].
  unfold each. rewrite each_from_fst.
  - f_equal. f_equal. apply map_ext_in. intros x Hx.
    rewrite (Ad_Validate_wrapper x (Hw x Hx)). reflexivity.
  - apply forallb_forall. intros x Hx.
    rewrite (Ad_Validate_wrapper x (Hw x Hx)). reflexivity.
Qed.

Lemma Wrapper_documents_validate_instance :
  let w := Sample.wrapper [Impression.mk "a" ""; Impression.mk "b" " http://i "] [] in
  VAST.Validate (Sample.doc [Sample.wrapper_ad w])
  = (Sample.doc [Sample.wrapper_ad (Sample.wrapper [Impression.mk "b" " http://i "] [])], None).
Proof.
  apply (proj2 Wrapper_documents_validate
           (Sample.doc [Sample.wrapper_ad
                          (Sample.wrapper [Impression.mk "a" ""; Impression.mk "b" " http://i "] [])])).
  - discriminate.
  - intros a [<-|[]]. discriminate.
Defined.

(** What [InLine.Validate] does to the three lists once the Creatives have
    validated: Impressions and ViewableImpression are filtered and trimmed,
    Errors are filtered only. *)
Lemma InLine_Validate_lists (i : InLine.t) :
  Valid.inline i = true ->
  let i' := fst (InLine.Validate i) in
  InLine.Impressions i'
  = map (fun x => Impression.mk (Impression.ID x) (Strings.TrimSpace (Impression.URI x)))
        (List.filter (fun x => nonempty (Impression.URI x)) (InLine.Impressions i)) /\
  InLine.Errors i'
  = List.filter (fun x => nonempty (CDATAString.CDATA x)) (InLine.Errors i) /\
  InLine.ViewableImpression i'
  = map (fun x => Viewable.mk (Viewable.ID x) (Strings.TrimSpace (Viewable.URI x)))
        (List.filter (fun x => nonempty (Viewable.URI x)) (InLine.ViewableImpression i)).
Proof.
  intros Hv. rewrite <- InLine_Validate_ok in Hv. revert Hv.
  unfold InLine.Validate. destruct (InLine.Creatives i) as [|c cs]; [discriminate|].
  destruct (each _ _ (c :: cs)) as [cs' [msg|]]; [discriminate|]. intros _.
  cbn -[filter_in_place]. rewrite !filter_in_place_omap.
  unfold InLine.keepErr. rewrite (omap_filter (fun x => nonempty (CDATAString.CDATA x))).
  repeat split.
  - clear. induction (InLine.Impressions i) as [|x l IH]; [reflexivity|].
    cbn [omap list_omap List.filter]. unfold InLine.keepImp at 1.
    destruct (nonempty (Impression.URI x)); cbn [map]; rewrite <- IH; reflexivity.
  - clear. induction (InLine.ViewableImpression i) as [|x l IH]; [reflexivity|].
    cbn [omap list_omap List.filter]. unfold InLine.keepVImp at 1.
    destruct (nonempty (Viewable.URI x)); cbn [map]; rewrite <- IH; reflexivity.
Qed.

(** C7 at its failing input: the Impression and the ViewableImpression are
    trimmed, the Error keeps its surrounding blanks. *)
Theorem InLine_Validate_leaves_Errors_untrimmed :
  let c := Sample.creative
             (Some (Sample.linear [] [Sample.media 640 360 "video/mp4" "http://a.com/v.mp4"])) in
  let i := InLine.mk None (Sample.cdata "ad") [Impression.mk "" " http://a.com/i "]
             [Viewable.mk "" " http://a.com/v "] [c] (Sample.cdata "") "" (Sample.cdata "")
             [Sample.cdata " http://a.com/e "] "" [] in
  snd (InLine.Validate i) = None /\
  InLine.Impressions (fst (InLine.Validate i)) = [Impression.mk "" "http://a.com/i"] /\
  InLine.ViewableImpression (fst (InLine.Validate i)) = [Viewable.mk "" "http://a.com/v"] /\
  InLine.Errors (fst (InLine.Validate i)) = [Sample.cdata " http://a.com/e "] /\
  Strings.TrimSpace " http://a.com/e " = "http://a.com/e".
Proof. repeat split; vm_compute; reflexivity. Qed.

(** ** [SetSecure] *)

Lemma Ad_SetSecure_wrapper secure a : Ad.Wrapper a <> None -> Ad.SetSecure secure a = a.
Proof. unfold Ad.SetSecure. destruct (Ad.Wrapper a); congruence. Qed.

(** C9 (amended).  [SetSecure] rewrites the document-level Error URIs with
    [SecureUrl] and leaves every Ad that has a Wrapper exactly as it was:
    its Impressions, ViewableImpression and Errors are not rewritten, and
    neither is any URI inside its Creatives. *)
Theorem SetSecure_skips_wrappers (v : VAST.t) (secure : bool) :
  VAST.Errors (VAST.SetSecure secure v)
  = map (fun e => CDATAString.mk (SecureUrl (CDATAString.CDATA e) secure)) (VAST.Errors v) /\
  length (VAST.Ads (VAST.SetSecure secure v)) = length (VAST.Ads v) /\
  (forall (i : nat) (a : Ad.t),
      VAST.Ads v !! i = Some a ->
      Ad.Wrapper a <> None ->
      VAST.Ads (VAST.SetSecure secure v) !! i = Some a).
Proof.
  unfold VAST.SetSecure. cbn [VAST.Errors VAST.Ads]. repeat split.
  - apply length_map.
  - intros i a Hi Hw. rewrite list_lookup_fmap, Hi. simpl.
    rewrite (Ad_SetSecure_wrapper secure a Hw). reflexivity.
Qed.

Lemma SetSecure_skips_wrappers_instance :
  let a := Sample.wrapper_ad (Sample.wrapper [Impression.mk "" "http://a.com/i"] []) in
  VAST.Ads (VAST.SetSecure true (VAST.mk "3.0" [a] [Sample.cdata "http://a.com/e"])) !! 0%nat
  = Some a.
Proof.
  apply (proj2 (proj2 (SetSecure_skips_wrappers
                         (VAST.mk "3.0"
                            [Sample.wrapper_ad
                               (Sample.wrapper [Impression.mk "" "http://a.com/i"] [])]
                            [Sample.cdata "http://a.com/e"]) true)) 0%nat).
  - reflexivity.
  - discriminate.
Defined.

(** C9 as stated fails: the Impression of a Wrapper ad keeps its [http]
    URI under [SetSecure(true)], while the document-level Error is
    rewritten. *)
Lemma SetSecure_leaves_wrapper_impression :
  let w := Sample.wrapper [Impression.mk "" "http://a.com/i"] [] in
  let v := VAST.mk "3.0" [Sample.wrapper_ad w] [Sample.cdata "http://a.com/e"] in
  VAST.SetSecure true v = VAST.mk "3.0" [Sample.wrapper_ad w] [Sample.cdata "https://a.com/e"] /\
  SecureUrl "http://a.com/i" true = "https://a.com/i" /\
  SecureUrl "http://a.com/i" true <> "http://a.com/i".
Proof.
  split; [vm_compute; reflexivity|]. split; [vm_compute; reflexivity|].
  vm_compute. discriminate.
Qed.

(** ** The Extension codec *)

Lemma map_fold_reinsert (attrs : gmap string string) :
  map_fold (fun name value acc =>
              if negb (Extension.reserved name) then <[name := value]> acc else acc)
           attrs attrs = attrs.
Proof.
  assert (H : forall m acc : gmap string string,
             (forall k x, m !! k = Some x -> acc !! k = Some x) ->
             map_fold (fun name value acc =>
                         if negb (Extension.reserved name) then <[name := value]> acc else acc)
                      acc m = acc).
  { intros m. induction m as [|k x m Hk Hfold IH] using map_first_key_ind; intros acc Hsub.
    - apply map_fold_empty.
    - rewrite map_fold_insert_first_key by assumption.
      rewrite IH.
      + destruct (negb (Extension.reserved k)); [|reflexivity].
        apply insert_id, Hsub, lookup_insert_eq.
      + intros k' x' Hk'. apply Hsub.
        destruct (decide (k = k')) as [<-|Hne]; [congruence|].
        rewrite lookup_insert_ne by assumption. exact Hk'. }
  apply H. auto.
Qed.

(** The two halves of the codec that are this repository's own.  What
    [MarshalXML] hands to the encoder carries the tracking list or the raw
    data, never both. *)
Lemma MarshalXML_shape e start :
  fst (Extension.MarshalXML e start)
  = match Extension.CustomTracking e with
    | [] => Extension.WithoutCT
              (Extension.mkNoCT (Extension.Type_ e) (Extension.Name e) (Extension.Data e))
    | ct => Extension.WithCT (Extension.mk (Extension.Type_ e) (Extension.Name e) ct "" ∅)
    end.
Proof. unfold Extension.MarshalXML. destruct (Extension.CustomTracking e); reflexivity. Qed.

(** [UnmarshalXML] copies type, name and tracking list of the decoded value,
    and its data only when the decoded tracking list is empty. *)
Lemma UnmarshalXML_payload dec e start e2 :
  dec start = (e2, None) ->
  let r := fst (Extension.UnmarshalXML dec e start) in
  Extension.Type_ r = Extension.Type_ e2 /\
  Extension.Name r = Extension.Name e2 /\
  Extension.CustomTracking r = Extension.CustomTracking e2 /\
  Extension.Data r
  = match Extension.CustomTracking e2 with [] => Extension.Data e2 | _ => Extension.Data e end.
Proof.
  intros Hdec. unfold Extension.UnmarshalXML. rewrite Hdec. cbn [fst].
  destruct (Extension.CustomTracking e2) eqn:Hct;
    cbn [Extension.CustomTracking length Nat.eqb];
    destruct (0 <? length (xml.Attrs start))%nat;
    cbn [Extension.Type_ Extension.Name Extension.CustomTracking Extension.Data];
    rewrite ?Hct; auto.
Qed.

(** [UnmarshalXML] never changes the attribute bag of its receiver,
    whatever attributes the start element carries. *)
Lemma UnmarshalXML_Attributes dec e start :
  Extension.Attributes (fst (Extension.UnmarshalXML dec e start)) = Extension.Attributes e.
Proof.
  unfold Extension.UnmarshalXML. destruct (dec start) as [e2 [msg|]]; [reflexivity|].
  cbn [fst]. destruct (length (Extension.CustomTracking _) =? 0)%nat;
    destruct (0 <? length (xml.Attrs start))%nat; cbn [Extension.Attributes];
    try reflexivity; apply map_fold_reinsert.
Qed.

(** C8 at its failing input: decoding [<Extension type="t" foo="bar">] into a
    fresh Extension copies the type and leaves the attribute bag empty;
    [foo] is not merged. *)
Theorem UnmarshalXML_drops_extra_attributes :
  let attr k x := xml.mkAttr (xml.mkName "" k) x in
  let start := xml.mkStart (xml.mkName "" "Extension") [attr "type" "t"; attr "foo" "bar"] in
  let dec (_ : xml.StartElement) := (Extension.mk "t" "" [] "" ∅, @None string) in
  let r := Extension.UnmarshalXML dec (Extension.mk "" "" [] "" ∅) start in
  snd r = None /\
  Extension.Type_ (fst r) = "t" /\
  Extension.Attributes (fst r) = ∅ /\
  Extension.Attributes (fst r) !! "foo" = None.
Proof.
  intros attr start dec r.
  assert (Ha : Extension.Attributes (fst r) = ∅) by apply UnmarshalXML_Attributes.
  split; [reflexivity|]. split; [reflexivity|]. split; [exact Ha|].
  rewrite Ha. apply lookup_empty.
Qed.

(** ** The order of [float64] *)

Ltac cmp_cases :=
  repeat match goal with
         | |- context [Z.compare ?a ?b] => destruct (Z.compare_spec a b)
         | |- context [PosDef.Pos.compare_cont Eq ?a ?b] =>
             change (PosDef.Pos.compare_cont Eq a b) with (Pos.compare a b)
         | |- context [Pos.compare ?a ?b] => destruct (Pos.compare_spec a b)
         end.

Ltac float_order :=
  unfold float64.lt, float64.le, SFltb, SFleb, SFcompare;
  repeat match goal with
         | x : spec_float |- _ => destruct x
         | x : float64.t |- _ => destruct x
         | s : bool |- _ => destruct s
         end;
  try discriminate; try reflexivity;
  cmp_cases; simpl; intros; try discriminate; try reflexivity; try lia.

Section FloatOrder.
Implicit Types x m b : float64.t.

Lemma lt_irrefl x : float64.lt x x = false.
Proof. float_order. Qed.

Lemma le_false_lt x b : float64.le x b = false -> float64.lt x b = false.
Proof. float_order. Qed.

(** [x] is above [b] or unordered, and [m] is below [b]. *)
Lemma lt_le_false m b x :
  float64.lt m b = true -> float64.le x b = false -> float64.le x m = false.
Proof. float_order. Qed.

Lemma lt_lt_false m b x :
  float64.lt m b = true -> float64.lt x b = false -> float64.le x m = false.
Proof. float_order. Qed.
End FloatOrder.

(** ** [FilterSize] *)

Section BestFit.
Variables w h : Z.

Lemma running_best_step seen b m :
  running_best w h seen b -> running_best w h (seen ++ [m]) (VAST.better w h b m).
Proof.
  intros (before & behind & -> & Hbefore & Hbehind). unfold VAST.better.
  destruct (float64.lt (VAST.deviation w h m) (VAST.deviation w h b)) eqn:Hlt.
  - exists (before ++ b :: behind)%list, []. split; [reflexivity|]. split.
    + intros x Hx. apply in_app_or in Hx as [Hx|[<-|Hx]].
      * apply (lt_le_false _ _ _ Hlt), Hbefore, Hx.
      * apply (lt_lt_false _ _ _ Hlt), lt_irrefl.
      * apply (lt_lt_false _ _ _ Hlt), Hbehind, Hx.
    + intros x [].
  - exists before, (behind ++ [m])%list. split.
    + rewrite <- app_assoc. reflexivity.
    + split; [exact Hbefore|].
      intros x Hx. apply in_app_or in Hx as [Hx|[<-|[]]]; [apply Hbehind, Hx|exact Hlt].
Qed.

Lemma running_best_fold rest :
  forall seen b,
    running_best w h seen b ->
    running_best w h (seen ++ rest) (fold_left (VAST.better w h) rest b).
Proof.
  induction rest as [|m rest IH]; intros seen b Hb; simpl.
  - rewrite app_nil_r. exact Hb.
  - replace (seen ++ m :: rest)%list with ((seen ++ [m]) ++ rest)%list
      by (rewrite <- app_assoc; reflexivity).
    apply IH, running_best_step, Hb.
Qed.

(** The selection loop of [FilterSize], which starts from the first
    candidate and visits all of them. *)
Lemma best_of_candidates first rest :
  running_best w h (first :: rest) (fold_left (VAST.better w h) (first :: rest) first).
Proof.
  simpl. unfold VAST.better at 2. rewrite lt_irrefl.
  apply (running_best_fold rest [first] first).
  exists [], []. repeat split; intros x [].
Qed.

Lemma size_body_keep m (st : shared MediaFile.t) :
  VAST.size_body w h m st
  = keep_body (fun m => if same_orientation w h m then Some m else None) m st.
Proof.
  unfold VAST.size_body, keep_body, same_orientation.
  destruct (Z.gtb_spec (int_sub w h) 0), (Z.ltb_spec (int_sub w h) 0);
    destruct (Z.gtb_spec (int_sub (MediaFile.Width m) (MediaFile.Height m)) 0),
             (Z.ltb_spec (int_sub (MediaFile.Width m) (MediaFile.Height m)) 0);
    try lia; simpl;
    destruct (Z.eqb_spec (Z.sgn (int_sub (MediaFile.Width m) (MediaFile.Height m)))
                         (Z.sgn (int_sub w h)));
    destruct (Z.eqb_spec (Z.sgn (int_sub w h)) 0); simpl; try reflexivity; lia.
Qed.

(** The candidates are the media files of the target's orientation, in
    their order; the backing array is left alone when there is none. *)
Lemma size_pass files :
  range (VAST.size_body w h) (alias files)
  = fold_left append (List.filter (same_orientation w h) files) (alias files).
Proof.
  unfold range. rewrite (range_from_ext _ _ size_body_keep).
  fold (range (keep_body (fun m => if same_orientation w h m then Some m else None))
              (alias files)).
  rewrite range_keep_alias, omap_filter. reflexivity.
Qed.
End BestFit.

Lemma set_media_same v ad ads il c cs l :
  VAST.Ads v = ad :: ads ->
  Ad.InLine ad = Some il ->
  InLine.Creatives il = c :: cs ->
  Creative.Linear c = Some l ->
  VAST.set_media v ad ads il c cs l (Linear.MediaFiles l) = v.
Proof.
  destruct v, ad, il, c, l. simpl. intros -> -> -> ->. reflexivity.
Qed.

Lemma with_media_reached v ad ads il c cs l k :
  VAST.Ads v = ad :: ads ->
  Ad.InLine ad = Some il ->
  InLine.Creatives il = c :: cs ->
  Creative.Linear c = Some l ->
  VAST.with_media v k = k (Linear.MediaFiles l) (VAST.set_media v ad ads il c cs l).
Proof. unfold VAST.with_media. intros -> -> -> ->. reflexivity. Qed.

(** C2 (amended).  On a document whose first Ad has an InLine whose first
    Creative has a Linear, [FilterSize(w, h)] takes as candidates exactly the
    MediaFiles of that Linear for which the sign of Width - Height equals the
    non-zero sign of [w - h] (both differences in Go's wrapping [int]); with
    no candidate it returns ["empty media by size"] and leaves the document
    as it was; otherwise it replaces the MediaFiles by one entry, a copy of
    the candidate [best] with Width and Height set to [w] and [h], where the
    deviation [math.Abs(float64(W*H)*100/float64(w*h) - 100)] is computed in
    [float64]: no candidate has a deviation below that of [best], and no
    candidate listed before [best] has a deviation less than or equal to it. *)
Theorem FilterSize_best_fit (w h : Z) (v : VAST.t) ad ads il c cs l :
  VAST.Ads v = ad :: ads ->
  Ad.InLine ad = Some il ->
  InLine.Creatives il = c :: cs ->
  Creative.Linear c = Some l ->
  let candidates := List.filter (same_orientation w h) (Linear.MediaFiles l) in
  (candidates = [] -> VAST.FilterSize w h v = Returned v (Some "empty media by size")) /\
  (candidates <> [] ->
   exists before best behind,
     candidates = (before ++ best :: behind)%list /\
     (forall m, In m before ->
                float64.le (VAST.deviation w h m) (VAST.deviation w h best) = false) /\
     (forall m, In m candidates ->
                float64.lt (VAST.deviation w h m) (VAST.deviation w h best) = false) /\
     VAST.FilterSize w h v
     = Returned (VAST.set_media v ad ads il c cs l [MediaFile.set_size w h best]) None).
Proof.
  intros Hads Hil Hcs Hl candidates. unfold VAST.FilterSize.
  rewrite (with_media_reached v ad ads il c cs l _ Hads Hil Hcs Hl).
  rewrite size_pass. rewrite out_fold_append. cbn [alias out app].
  fold candidates. split.
  - intros ->. cbn [fold_left store alias].
    rewrite (set_media_same v ad ads il c cs l Hads Hil Hcs Hl). reflexivity.
  - intros Hne. destruct candidates as [|first rest] eqn:Hc; [congruence|].
    destruct (best_of_candidates w h first rest) as (before & behind & Heq & Hbefore & Hbehind).
    exists before, (fold_left (VAST.better w h) (first :: rest) first), behind.
    split; [exact Heq|]. split; [exact Hbefore|]. split; [|reflexivity].
    intros m Hm. rewrite Heq in Hm. apply in_app_or in Hm as [Hm|[<-|Hm]].
    + apply le_false_lt, Hbefore, Hm.
    + apply lt_irrefl.
    + apply Hbehind, Hm.
Qed.

(** The example of the specification: target 1920x1080, candidates of areas
    2073600, 921600 and 3686400 and one portrait file. *)
Example FilterSize_example :
  let files := [Sample.media 1280 720 "video/mp4" "http://a.com/720.mp4";
                Sample.media 1080 1920 "video/mp4" "http://a.com/portrait.mp4";
                Sample.media 1920 1080 "video/mp4" "http://a.com/1080.mp4";
                Sample.media 2560 1440 "video/mp4" "http://a.com/1440.mp4"] in
  VAST.FilterSize 1920 1080 (Sample.media_doc files)
  = Returned (Sample.media_doc [Sample.media 1920 1080 "video/mp4" "http://a.com/1080.mp4"]) None.
Proof. vm_compute. reflexivity. Qed.

Lemma FilterSize_best_fit_instance :
  let files := [Sample.media 1280 720 "video/mp4" "http://a.com/720.mp4";
                Sample.media 1080 1920 "video/mp4" "http://a.com/portrait.mp4";
                Sample.media 1920 1080 "video/mp4" "http://a.com/1080.mp4";
                Sample.media 2560 1440 "video/mp4" "http://a.com/1440.mp4"] in
  exists best,
    In best files /\
    VAST.FilterSize 1920 1080 (Sample.media_doc files)
    = Returned (Sample.media_doc [MediaFile.set_size 1920 1080 best]) None.
Proof.
  intros files.
  destruct (proj2 (FilterSize_best_fit 1920 1080 (Sample.media_doc files) _ _ _ _ _ _
                     eq_refl eq_refl eq_refl eq_refl))
    as (before & best & behind & Hc & _ & _ & Hr).
  - discriminate.
  - exists best. split; [|exact Hr].
    assert (Hin : In best (before ++ best :: behind)) by (apply in_or_app; right; left; reflexivity).
    rewrite <- Hc in Hin. apply filter_In in Hin. exact (proj1 Hin).
Defined.

(** C2 as stated fails: for the target 1280x720 the areas of 1280x960 and
    1024x600 both deviate by exactly one third, both files are candidates
    and 1280x960 comes first, so it should win the tie (it also has the
    smaller deviation when the formula of the specification is evaluated in
    [float64]); the rounding of the code's expression makes the deviation of
    1024x600 the smaller one, and 1024x600 is selected. *)
Lemma FilterSize_rounding_breaks_tie :
  let a := Sample.media 1280 960 "video/mp4" "http://a.com/a.mp4" in
  let b := Sample.media 1024 600 "video/mp4" "http://a.com/b.mp4" in
  List.filter (same_orientation 1280 720) [a; b] = [a; b] /\
  exact_deviation_scaled 1280 720 a = exact_deviation_scaled 1280 720 b /\
  float64.lt (spec_deviation 1280 720 a) (spec_deviation 1280 720 b) = true /\
  float64.lt (VAST.deviation 1280 720 b) (VAST.deviation 1280 720 a) = true /\
  VAST.FilterSize 1280 720 (Sample.media_doc [a; b])
  = Returned (Sample.media_doc [MediaFile.set_size 1280 720 b]) None.
Proof. repeat split; vm_compute; reflexivity. Qed.

(** The end-to-end example of the specification. *)
Example pipeline_example :
  let files := [Sample.media 1920 1080 "video/mp4" "http://a.com/1080.mp4";
                Sample.media 1280 720 "video/mp4" "http://a.com/720.mp4";
                Sample.media 720 1280 "video/mp4" "http://a.com/portrait.mp4"] in
  let i := Sample.inline [Impression.mk "" ""; Impression.mk "" "http://a.com/i"] []
             [Sample.creative (Some (Sample.linear [] files))] in
  let v1 := fst (VAST.Validate (Sample.doc [Sample.inline_ad i])) in
  let v2 := VAST.SetSecure true v1 in
  snd (VAST.Validate (Sample.doc [Sample.inline_ad i])) = None /\
  (exists i1, VAST.Ads v1 = [Sample.inline_ad i1] /\
              InLine.Impressions i1 = [Impression.mk "" "http://a.com/i"]) /\
  (exists i2, VAST.Ads v2 = [Sample.inline_ad i2] /\
              InLine.Impressions i2 = [Impression.mk "" "https://a.com/i"]) /\
  VAST.FilterSize 1280 720 v2
  = Returned (Sample.doc [Sample.inline_ad
       (Sample.inline [Impression.mk "" "https://a.com/i"] []
          [Sample.creative (Some (Sample.linear []
             [Sample.media 1280 720 "video/mp4" "https://a.com/720.mp4"]))])]) None.
Proof.
  split; [vm_compute; reflexivity|]. split; [|split].
  - eexists. split; vm_compute; reflexivity.
  - eexists. split; vm_compute; reflexivity.
  - vm_compute. reflexivity.
Qed.

(** ** [FilterFormat] *)

Section FormatFacts.
Implicit Types (st : shared MediaFile.t) (files : list MediaFile.t).

Lemma format_body_keep f m st :
  VAST.format_body f m st
  = keep_body (fun m => if String.eqb (MediaFile.Type_ m) f then Some m else None) m st.
Proof. unfold VAST.format_body, keep_body. destruct (String.eqb _ f); reflexivity. Qed.

(** On the untouched array a pass is the functional filter. *)
Lemma format_pass_alias f files :
  VAST.format_pass f (alias files) = fold_left append (of_format f files) (alias files).
Proof.
  unfold VAST.format_pass, range.
  rewrite (range_from_ext _ _ (format_body_keep f)).
  fold (range (keep_body (fun m => if String.eqb (MediaFile.Type_ m) f then Some m else None))
              (alias files)).
  rewrite range_keep_alias, omap_filter. reflexivity.
Qed.

(** A pass never takes back what has been appended. *)
Lemma range_from_out_grows f count :
  forall i st, out st <> [] -> out (range_from (VAST.format_body f) count i st) <> [].
Proof.
  induction count as [|c IH]; intros i st Hst; simpl; [exact Hst|].
  destruct (store st !! i) as [m|]; [|exact Hst]. apply IH.
  unfold VAST.format_body. destruct (String.eqb _ f); [|exact Hst].
  simpl. destruct (out st); discriminate.
Qed.

Lemma passes_out_grow format :
  forall st, out st <> [] ->
             out (fold_left (fun st f => VAST.format_pass f st) format st) <> [].
Proof.
  induction format as [|f fs IH]; intros st Hst; simpl; [exact Hst|].
  apply IH. unfold VAST.format_pass, range.
  apply range_from_out_grows, Hst.
Qed.

(** Nothing has been appended exactly when no media file has one of the
    requested types, and then the array is as it was. *)
Lemma format_loop_nothing format files :
  (forall f, In f format -> of_format f files = []) ->
  VAST.format_loop format files = alias files.
Proof.
  unfold VAST.format_loop. induction format as [|f fs IH]; intros H; simpl; [reflexivity|].
  rewrite format_pass_alias, (H f) by (left; reflexivity). simpl.
  apply IH. intros g Hg. apply H. right. exact Hg.
Qed.

Lemma format_loop_something format files f :
  In f format -> of_format f files <> [] -> out (VAST.format_loop format files) <> [].
Proof.
  unfold VAST.format_loop. induction format as [|g gs IH]; intros Hin Hf; [destruct Hin|].
  simpl. destruct (of_format g files) as [|m ms] eqn:Hg.
  - rewrite format_pass_alias, Hg. simpl. apply IH; [|exact Hf].
    destruct Hin as [->|Hin]; [congruence|exact Hin].
  - apply passes_out_grow. rewrite format_pass_alias, out_fold_append, Hg. discriminate.
Qed.
End FormatFacts.

(** With one requested format the media files of that type are kept in
    their order; with none of that type the call fails and changes nothing. *)
Lemma FilterFormat_single (f : string) (v : VAST.t) ad ads il c cs l :
  VAST.Ads v = ad :: ads ->
  Ad.InLine ad = Some il ->
  InLine.Creatives il = c :: cs ->
  Creative.Linear c = Some l ->
  VAST.FilterFormat [f] v
  = match of_format f (Linear.MediaFiles l) with
    | [] => Returned v (Some "empty media by format")
    | media => Returned (VAST.set_media v ad ads il c cs l media) None
    end.
Proof.
  intros Hads Hil Hcs Hl. unfold VAST.FilterFormat.
  rewrite (with_media_reached v ad ads il c cs l _ Hads Hil Hcs Hl).
  unfold VAST.format_loop. simpl fold_left. rewrite format_pass_alias, out_fold_append.
  simpl. destruct (of_format f (Linear.MediaFiles l)); [|reflexivity].
  simpl. rewrite (set_media_same v ad ads il c cs l Hads Hil Hcs Hl). reflexivity.
Qed.

(** [FilterFormat] fails with ["empty media by format"], leaving the document
    as it was, exactly when no media file has one of the requested types. *)
Lemma FilterFormat_error (format : list string) (v : VAST.t) ad ads il c cs l :
  VAST.Ads v = ad :: ads ->
  Ad.InLine ad = Some il ->
  InLine.Creatives il = c :: cs ->
  Creative.Linear c = Some l ->
  ((forall f, In f format -> of_format f (Linear.MediaFiles l) = []) ->
   VAST.FilterFormat format v = Returned v (Some "empty media by format")) /\
  (forall f, In f format -> of_format f (Linear.MediaFiles l) <> [] ->
             exists v', VAST.FilterFormat format v = Returned v' None).
Proof.
  intros Hads Hil Hcs Hl. unfold VAST.FilterFormat.
  rewrite (with_media_reached v ad ads il c cs l _ Hads Hil Hcs Hl). split.
  - intros H. rewrite (format_loop_nothing format _ H). simpl.
    rewrite (set_media_same v ad ads il c cs l Hads Hil Hcs Hl). reflexivity.
  - intros f Hin Hf. pose proof (format_loop_something format _ f Hin Hf) as Hout.
    destruct (out (VAST.format_loop format (Linear.MediaFiles l))); [congruence|].
    eexists. reflexivity.
Qed.

(** C5 at its failing input: the pass for ["video/webm"] stores the webm
    file in the first cell of the array, over the mp4 file, before the pass
    for ["video/mp4"] reads that cell; the mp4 file is lost although its type
    was requested.  With the formats in the other order both are kept. *)
Theorem FilterFormat_loses_overwritten_media :
  let a := Sample.media 640 360 "video/mp4" "http://a.com/a.mp4" in
  let b := Sample.media 640 360 "video/webm" "http://a.com/b.webm" in
  VAST.FilterFormat ["video/webm"; "video/mp4"] (Sample.media_doc [a; b])
  = Returned (Sample.media_doc [b]) None /\
  store (VAST.format_loop ["video/webm"; "video/mp4"] [a; b]) = [b; b] /\
  VAST.FilterFormat ["video/mp4"; "video/webm"] (Sample.media_doc [a; b])
  = Returned (Sample.media_doc [a; b]) None.
Proof. repeat split; vm_compute; reflexivity. Qed.

(** A repeated pass appends what it reads again. *)
Example FilterFormat_repeats :
  let a := Sample.media 640 360 "video/mp4" "http://a.com/a.mp4" in
  let b := Sample.media 640 360 "video/webm" "http://a.com/b.webm" in
  VAST.FilterFormat ["video/webm"; "video/webm"] (Sample.media_doc [a; b])
  = Returned (Sample.media_doc [b; b; b]) None.
Proof. vm_compute. reflexivity. Qed.

(** ** Panics *)

(** C6 (amended).  On a document with at least one Ad, [FilterFormat] and
    [FilterSize] return the named error ["not inline"] when the first Ad has
    no InLine, and return, with no error or with ["empty media by format"]
    (respectively ["empty media by size"]), when the first Ad has an InLine
    whose first Creative has a Linear. *)
Theorem filters_return (format : list string) (w h : Z) (v : VAST.t) ad ads :
  VAST.Ads v = ad :: ads ->
  (Ad.InLine ad = None ->
   VAST.FilterFormat format v = Returned v (Some "not inline") /\
   VAST.FilterSize w h v = Returned v (Some "not inline")) /\
  (forall il c cs l,
      Ad.InLine ad = Some il ->
      InLine.Creatives il = c :: cs ->
      Creative.Linear c = Some l ->
      (exists v', VAST.FilterFormat format v = Returned v' None \/
                  VAST.FilterFormat format v = Returned v' (Some "empty media by format")) /\
      (exists v', VAST.FilterSize w h v = Returned v' None \/
                  VAST.FilterSize w h v = Returned v' (Some "empty media by size"))).
Proof.
  intros Hads. split.
  - intros Hil. unfold VAST.FilterFormat, VAST.FilterSize, VAST.with_media.
    rewrite Hads, Hil. split; reflexivity.
  - intros il c cs l Hil Hcs Hl. split.
    + unfold VAST.FilterFormat.
      rewrite (with_media_reached v ad ads il c cs l _ Hads Hil Hcs Hl).
      destruct (out (VAST.format_loop format (Linear.MediaFiles l)));
        eexists; [right|left]; reflexivity.
    + unfold VAST.FilterSize.
      rewrite (with_media_reached v ad ads il c cs l _ Hads Hil Hcs Hl).
      destruct (out (range (VAST.size_body w h) (alias (Linear.MediaFiles l))));
        eexists; [right|left]; reflexivity.
Qed.

Lemma filters_return_instance :
  let v := Sample.doc [Sample.wrapper_ad (Sample.wrapper [] [])] in
  VAST.FilterFormat ["video/mp4"] v = Returned v (Some "not inline") /\
  VAST.FilterSize 1280 720 v = Returned v (Some "not inline").
Proof.
  apply (proj1 (filters_return ["video/mp4"] 1280 720
                  (Sample.doc [Sample.wrapper_ad (Sample.wrapper [] [])]) _ _ eq_refl)).
  reflexivity.
Defined.

(** C6 as stated fails: with no Ad, with an InLine that has no Creative and
    with a first Creative that has no Linear both filters panic. *)
Lemma filters_panic :
  VAST.FilterFormat ["video/mp4"] (Sample.doc []) = Panicked IndexOutOfRange /\
  VAST.FilterSize 1280 720 (Sample.doc []) = Panicked IndexOutOfRange /\
  VAST.FilterFormat ["video/mp4"] (Sample.doc [Sample.inline_ad (Sample.inline [] [] [])])
  = Panicked IndexOutOfRange /\
  VAST.FilterSize 1280 720 (Sample.doc [Sample.inline_ad (Sample.inline [] [] [])])
  = Panicked IndexOutOfRange /\
  VAST.FilterFormat ["video/mp4"]
    (Sample.doc [Sample.inline_ad (Sample.inline [] [] [Sample.creative None])])
  = Panicked NilDereference /\
  VAST.FilterSize 1280 720
    (Sample.doc [Sample.inline_ad (Sample.inline [] [] [Sample.creative None])])
  = Panicked NilDereference.
Proof. repeat split. Qed.

(** * Further properties *)

(** ** White space in [SecureUrl], [ClearStr] and [ClearBuf] *)

Section ByteFacts.
Import Strings.

Lemma Contains_byte_cons c a s :
  Contains (String a s) (String c "")
  = (if ascii_dec c a then true else false) || Contains s (String c "").
Proof.
  change (Contains (String a s) (String c ""))
    with (String.prefix (String c "") (String a s) || Contains s (String c "")).
  simpl String.prefix. destruct (ascii_dec c a); [rewrite prefix_nil|]; reflexivity.
Qed.

Lemma delete_byte_absent c s : Contains (delete_byte c s) (String c "") = false.
Proof.
  induction s as [|a s IH]; [reflexivity|]. simpl delete_byte.
  destruct (ascii_dec c a) as [|Hne] eqn:Hd; [exact IH|].
  rewrite Contains_byte_cons, Hd, IH. reflexivity.
Qed.

Lemma delete_byte_keeps_absent a c s :
  Contains s (String c "") = false -> Contains (delete_byte a s) (String c "") = false.
Proof.
  induction s as [|b s IH]; [reflexivity|]. rewrite Contains_byte_cons.
  intros H. apply orb_false_elim in H as [Hb Hs]. simpl delete_byte.
  destruct (ascii_dec a b); [exact (IH Hs)|].
  rewrite Contains_byte_cons, Hb, (IH Hs). reflexivity.
Qed.

Lemma Clear_bytes s : ClearStr s = delete_byte (byte 9) (delete_byte (byte 10) s).
Proof.
  unfold ClearStr, bytes. simpl map. simpl string_of_list_ascii.
  rewrite !Replace_byte. reflexivity.
Qed.

Lemma SecureUrl_stripped url secure :
  SecureUrl url secure
  = delete_byte " " (delete_byte (byte 9) (delete_byte (byte 10)
      (scheme secure +:+ strip_scheme url))).
Proof. rewrite SecureUrl_shape, <- strip_space_scheme. apply strip_space_bytes. Qed.

Lemma SecureUrl_nonempty url secure : nonempty (SecureUrl url secure) = true.
Proof. rewrite SecureUrl_shape. destruct secure; reflexivity. Qed.

Lemma SecureUrl_scheme url secure :
  String.prefix (scheme secure) (SecureUrl url secure) = true.
Proof. rewrite SecureUrl_shape. apply prefix_app. Qed.
End ByteFacts.

(** X1.  Whatever the input, the result of [SecureUrl] contains no blank, no
    tab and no line feed, and it is never the empty string. *)
Theorem SecureUrl_has_no_white_space (url : string) (secure : bool) :
  Strings.Contains (SecureUrl url secure) " " = false /\
  Strings.Contains (SecureUrl url secure) (Strings.bytes [9%nat]) = false /\
  Strings.Contains (SecureUrl url secure) (Strings.bytes [10%nat]) = false /\
  SecureUrl url secure <> "".
Proof.
  rewrite SecureUrl_stripped. repeat split.
  - apply delete_byte_absent.
  - apply delete_byte_keeps_absent, delete_byte_absent.
  - apply delete_byte_keeps_absent, delete_byte_keeps_absent, delete_byte_absent.
  - rewrite <- SecureUrl_stripped. pose proof (SecureUrl_nonempty url secure) as H.
    intros E. rewrite E in H. discriminate.
Qed.

(** X2.  [ClearStr] and [ClearBuf] compute the same bytes: the input without
    its line feeds and tabs, every other byte kept in place; the result
    contains neither, and clearing it again changes nothing. *)
Theorem ClearStr_removes_line_feeds_and_tabs (buf : string) :
  ClearBuf buf = ClearStr buf /\
  ClearStr buf
  = Strings.delete_byte (Strings.byte 9) (Strings.delete_byte (Strings.byte 10) buf) /\
  Strings.Contains (ClearStr buf) (Strings.bytes [10%nat]) = false /\
  Strings.Contains (ClearStr buf) (Strings.bytes [9%nat]) = false /\
  ClearStr (ClearStr buf) = ClearStr buf.
Proof.
  split; [reflexivity|]. split; [apply Clear_bytes|]. rewrite !Clear_bytes. repeat split.
  - apply delete_byte_keeps_absent, delete_byte_absent.
  - apply delete_byte_absent.
  - rewrite (delete_byte_comm (Strings.byte 10) (Strings.byte 9)).
    rewrite !delete_byte_idem. reflexivity.
Qed.

(** X3.  A URL that went through [SecureUrl] is left as it is by [ClearStr]. *)
Theorem ClearStr_after_SecureUrl (url : string) (secure : bool) :
  ClearStr (SecureUrl url secure) = SecureUrl url secure.
Proof.
  unfold ClearStr.
  rewrite (Replace_absent (SecureUrl url secure) (Strings.bytes [10%nat])).
  - apply Replace_absent. rewrite SecureUrl_stripped.
    apply delete_byte_keeps_absent, delete_byte_absent.
  - rewrite SecureUrl_stripped.
    apply delete_byte_keeps_absent, delete_byte_keeps_absent, delete_byte_absent.
Qed.

(** ** More on [Validate] *)

Section EachMore.
Context {A : Type} (f : A -> A * error) (wrap : nat -> string -> string).

Lemma each_from_length (l : list A) :
  forall i, length (fst (each_from f wrap i l)) = length l.
Proof.
  induction l as [|x l IH]; intros i; simpl; [reflexivity|].
  destruct (f x) as [x' [msg|]]; simpl; [reflexivity|].
  specialize (IH (S i)). destruct (each_from f wrap (S i) l). simpl in *. congruence.
Qed.

(** The loop stops at the first element that fails: the elements before it
    have been visited, the ones behind it have not. *)
Lemma each_from_first_failure (pre post : list A) (x x' : A) (msg : string) :
  forall i,
    forallb (fun y => ok (snd (f y))) pre = true ->
    f x = (x', Some msg) ->
    each_from f wrap i (pre ++ x :: post)
    = ((map (fun y => fst (f y)) pre ++ x' :: post)%list, Some (wrap (i + length pre)%nat msg)).
Proof.
  induction pre as [|y pre IH]; intros i Hpre Hx; simpl in *.
  - rewrite Hx, Nat.add_0_r. reflexivity.
  - apply andb_prop in Hpre as [Hy Hpre].
    destruct (f y) as [y' [m|]]; simpl in *; [discriminate|].
    rewrite (IH (S i) Hpre Hx).
    replace (S i + length pre)%nat with (i + S (length pre))%nat by lia. reflexivity.
Qed.
End EachMore.

Lemma filter_keep_same {A} (l : list A) :
  match l with [] => [] | _ => l end = l.
Proof. destruct l; reflexivity. Qed.

Lemma VideoClicks_Validate_pruned c : VideoClicks.Validate c = (pruned_clicks c, None).
Proof.
  unfold VideoClicks.Validate, pruned_clicks, VideoClicks.keep.
  cbn [VideoClicks.ClickThroughs VideoClicks.ClickTrackings VideoClicks.CustomClicks].
  rewrite !filter_in_place_omap.
  rewrite !(omap_filter (fun x => nonempty (VideoClick.URI x))), !filter_keep_same.
  reflexivity.
Qed.

Lemma forallb_tracking_events (l : list Tracking.t) :
  forallb Valid.tracking l = true ->
  forallb (fun t0 => ok (snd (t0, Tracking.Validate t0)))
          (List.filter (fun x => nonempty (Tracking.URI x)) l) = true.
Proof.
  induction l as [|t0 l IH]; [reflexivity|]. cbn [forallb List.filter].
  intros H. apply andb_prop in H as [Ht Hl]. unfold Valid.tracking in Ht.
  destruct (nonempty (Tracking.URI t0)); [|exact (IH Hl)].
  cbn [forallb]. apply andb_true_intro. split; [|exact (IH Hl)].
  cbn [snd]. unfold Tracking.Validate. rewrite nonempty_eqb.
  simpl in Ht. rewrite Ht. reflexivity.
Qed.

(** What a successful [Linear.Validate] leaves behind. *)
Lemma Linear_Validate_success l :
  Valid.linear l = true -> Linear.Validate l = (pruned_linear l, None).
Proof.
  unfold Valid.linear, Linear.Validate, pruned_linear. intros H.
  apply andb_prop in H as [H Htrack]. apply andb_prop in H as [Hlen Hmedia].
  destruct (Linear.MediaFiles l) as [|m ms] eqn:Hm; [discriminate|].
  unfold each. rewrite each_from_fst
    by (rewrite (forallb_pointwise _ Valid.media) by apply MediaFile_Validate_ok; exact Hmedia).
  unfold Linear.keep. rewrite filter_in_place_omap.
  rewrite (omap_filter (fun x => nonempty (Tracking.URI x))).
  cbn [Linear.TrackingEvents Linear.set_TrackingEvents].
  rewrite each_from_fst by (apply forallb_tracking_events, Htrack).
  cbn [Linear.VideoClicks Linear.SkipOffset Linear.Duration Linear.AdParameters Linear.Icons
       Linear.MediaFiles Linear.TrackingEvents].
  unfold Linear.set_TrackingEvents, Linear.set_VideoClicks.
  cbn [Linear.VideoClicks Linear.SkipOffset Linear.Duration Linear.AdParameters Linear.Icons
       Linear.MediaFiles Linear.TrackingEvents].
  destruct (Linear.VideoClicks l) as [clicks|]; cbn [fmap option_fmap option_map].
  - rewrite VideoClicks_Validate_pruned, ?Hm. reflexivity.
  - rewrite ?Hm. reflexivity.
Qed.

Lemma forallb_filter_sub {A} (p q : A -> bool) (l : list A) :
  forallb p l = true -> forallb p (List.filter q l) = true.
Proof.
  induction l as [|x l IH]; [reflexivity|]. cbn [forallb List.filter].
  intros H. apply andb_prop in H as [Hx Hl].
  destruct (q x); [cbn [forallb]; rewrite Hx|]; auto.
Qed.

Lemma Linear_revalid l : Valid.linear l = true -> Valid.linear (fst (Linear.Validate l)) = true.
Proof.
  intros H. rewrite (Linear_Validate_success l H). revert H.
  unfold Valid.linear, pruned_linear. cbn [fst Linear.MediaFiles Linear.TrackingEvents].
  intros H. apply andb_prop in H as [H Htrack]. rewrite H.
  apply forallb_filter_sub. exact Htrack.
Qed.

Lemma Creative_revalid c :
  Valid.creative c = true -> Valid.creative (fst (Creative.Validate c)) = true.
Proof.
  unfold Valid.creative, Creative.Validate. destruct (Creative.Linear c) as [l|] eqn:Hl.
  - intros H. pose proof (Linear_revalid l H) as H'.
    destruct (Linear.Validate l) as [l' e]. simpl in *. exact H'.
  - destruct (Creative.NonLinearAds c) eqn:Hn; [|discriminate]. intros _.
    simpl. rewrite Hl. reflexivity.
Qed.

(** What a successful [InLine.Validate] leaves behind. *)
Lemma InLine_Validate_success i :
  Valid.inline i = true ->
  InLine.Validate i
  = (InLine.set_ViewableImpression (omap InLine.keepVImp (InLine.ViewableImpression i))
       (InLine.set_Errors (omap InLine.keepErr (InLine.Errors i))
          (InLine.set_Impressions (omap InLine.keepImp (InLine.Impressions i))
             (InLine.set_Creatives
                (map (fun c => fst (Creative.Validate c)) (InLine.Creatives i)) i))), None).
Proof.
  unfold Valid.inline, InLine.Validate. intros H. apply andb_prop in H as [Hlen Hc].
  destruct (InLine.Creatives i) as [|c cs] eqn:Hcs; [discriminate|].
  unfold each. rewrite each_from_fst
    by (rewrite (forallb_pointwise _ Valid.creative) by apply Creative_Validate_ok; exact Hc).
  rewrite !filter_in_place_omap. reflexivity.
Qed.

Lemma InLine_revalid i : Valid.inline i = true -> Valid.inline (fst (InLine.Validate i)) = true.
Proof.
  intros H. rewrite (InLine_Validate_success i H). revert H.
  unfold Valid.inline. cbn [fst InLine.Creatives InLine.set_ViewableImpression InLine.set_Errors
    InLine.set_Impressions InLine.set_Creatives].
  intros H. apply andb_prop in H as [Hlen Hc]. rewrite length_map, Hlen.
  rewrite forallb_forall in Hc. apply forallb_forall. intros c' Hin.
  apply in_map_iff in Hin as (c & <- & Hin). apply Creative_revalid, Hc, Hin.
Qed.

Lemma Ad_revalid a : Valid.ad a = true -> Valid.ad (fst (Ad.Validate a)) = true.
Proof.
  unfold Valid.ad, Ad.Validate. destruct (Ad.Wrapper a) as [w|] eqn:Hw.
  - rewrite Wrapper_Validate_pruned. reflexivity.
  - destruct (Ad.InLine a) as [i|]; [|discriminate]. intros H.
    pose proof (InLine_revalid i H) as H'. destruct (InLine.Validate i). simpl in *.
    rewrite ?Hw. exact H'.
Qed.

(** X4.  [VAST.Validate] is fail-fast: when the Ads before some Ad validate
    and that Ad fails with [msg], the error is ["bad ad[i] " ++ msg] with [i]
    the index of that Ad; the Ads before it have been validated (and
    filtered), the failing Ad is as its own [Validate] left it, and the Ads
    behind it are untouched. *)
Theorem Validate_reports_first_failure (v : VAST.t) pre a post a' msg :
  VAST.Ads v = (pre ++ a :: post)%list ->
  forallb Valid.ad pre = true ->
  Ad.Validate a = (a', Some msg) ->
  VAST.Validate v
  = (VAST.mk (VAST.Version v)
       (map (fun x => fst (Ad.Validate x)) pre ++ a' :: post)%list (VAST.Errors v),
     Some ("bad ad[" +:+ fmt_d (length pre) +:+ "] " +:+ msg)).
Proof.
  intros Hads Hpre Ha. unfold VAST.Validate. rewrite Hads.
  destruct (pre ++ a :: post)%list as [|x xs] eqn:E; [destruct pre; discriminate|].
  rewrite <- E. unfold each.
  rewrite (each_from_first_failure Ad.Validate _ pre post a a' msg 0).
  - reflexivity.
  - rewrite (forallb_pointwise _ Valid.ad) by apply Ad_Validate_ok. exact Hpre.
  - exact Ha.
Qed.

Lemma Validate_reports_first_failure_instance :
  let good := Sample.wrapper_ad (Sample.wrapper [Impression.mk "" ""] []) in
  let bad := Ad.mk "b" 0 None None in
  VAST.Validate (Sample.doc [good; bad; good])
  = (Sample.doc [Sample.wrapper_ad (Sample.wrapper [] []); bad; good],
     Some "bad ad[1] empty inline and wrapper").
Proof.
  apply (Validate_reports_first_failure
           (Sample.doc [Sample.wrapper_ad (Sample.wrapper [Impression.mk "" ""] []);
                        Ad.mk "b" 0 None None;
                        Sample.wrapper_ad (Sample.wrapper [Impression.mk "" ""] [])])
           [Sample.wrapper_ad (Sample.wrapper [Impression.mk "" ""] [])]
           (Ad.mk "b" 0 None None)
           [Sample.wrapper_ad (Sample.wrapper [Impression.mk "" ""] [])]
           (Ad.mk "b" 0 None None) "empty inline and wrapper"); reflexivity.
Defined.

(** X5.  Whether it succeeds or fails, [VAST.Validate] never removes an Ad
    and never changes the version or the document-level Errors (which are
    not filtered, empty or not). *)
Theorem Validate_keeps_ads_and_errors (v : VAST.t) :
  length (VAST.Ads (fst (VAST.Validate v))) = length (VAST.Ads v) /\
  VAST.Version (fst (VAST.Validate v)) = VAST.Version v /\
  VAST.Errors (fst (VAST.Validate v)) = VAST.Errors v.
Proof.
  unfold VAST.Validate. destruct (VAST.Ads v) as [|a ads] eqn:Hads.
  - cbn [fst]. rewrite Hads. repeat split.
  - pose proof (each_from_length Ad.Validate
                  (fun i msg => "bad ad[" +:+ fmt_d i +:+ "] " +:+ msg) (a :: ads) 0) as Hlen.
    unfold each. destruct (each_from _ _ 0 (a :: ads)) as [ads' e]. simpl in *.
    repeat split. exact Hlen.
Qed.

(** X6.  When [Linear.Validate] returns no error, the MediaFiles and the
    other fields are as before, the TrackingEvents are the ones with a
    non-empty URI in their order, each of them has an event name, and each
    of the three click lists of VideoClicks has lost its empty-URI entries. *)
Theorem Linear_Validate_postcondition (l l' : Linear.t) :
  Linear.Validate l = (l', None) ->
  l' = pruned_linear l /\
  Forall (fun t0 => Tracking.URI t0 <> "" /\ Tracking.Event t0 <> "") (Linear.TrackingEvents l').
Proof.
  intros H. assert (Hv : Valid.linear l = true).
  { rewrite <- Linear_Validate_ok, H. reflexivity. }
  rewrite (Linear_Validate_success l Hv) in H. injection H as <-. split; [reflexivity|].
  unfold pruned_linear. cbn [Linear.TrackingEvents].
  unfold Valid.linear in Hv. apply andb_prop in Hv as [_ Htrack].
  rewrite forallb_forall in Htrack. apply Forall_forall. intros t0 Hin.
  apply list_elem_of_In, filter_In in Hin as [Hin Huri]. specialize (Htrack t0 Hin).
  unfold Valid.tracking in Htrack. rewrite Huri in Htrack. simpl in Htrack.
  unfold nonempty in *. split; intros E; rewrite E in *; discriminate.
Qed.

Lemma Linear_Validate_postcondition_instance :
  let l := Sample.linear [Tracking.mk "start" None ""; Tracking.mk "start" None "http://a.com/t"]
             [Sample.media 640 360 "video/mp4" "http://a.com/v.mp4"] in
  fst (Linear.Validate l) = pruned_linear l /\
  Forall (fun t0 => Tracking.URI t0 <> "" /\ Tracking.Event t0 <> "")
         (Linear.TrackingEvents (fst (Linear.Validate l))).
Proof.
  intros l. apply (Linear_Validate_postcondition l (fst (Linear.Validate l))). reflexivity.
Defined.

(** X7.  When [InLine.Validate] fails, the Impressions, the Errors and the
    ViewableImpression of the InLine are left unfiltered and untrimmed. *)
Theorem InLine_Validate_failure_keeps_lists (i : InLine.t) (msg : string) :
  snd (InLine.Validate i) = Some msg ->
  InLine.Impressions (fst (InLine.Validate i)) = InLine.Impressions i /\
  InLine.Errors (fst (InLine.Validate i)) = InLine.Errors i /\
  InLine.ViewableImpression (fst (InLine.Validate i)) = InLine.ViewableImpression i.
Proof.
  unfold InLine.Validate. destruct (InLine.Creatives i) as [|c cs]; [repeat split|].
  destruct (each _ _ (c :: cs)) as [cs' [m|]]; [repeat split|discriminate].
Qed.

Lemma InLine_Validate_failure_keeps_lists_instance :
  let i := Sample.inline [Impression.mk "" ""] [Sample.cdata ""] [Sample.creative None] in
  InLine.Impressions (fst (InLine.Validate i)) = [Impression.mk "" ""] /\
  InLine.Errors (fst (InLine.Validate i)) = [Sample.cdata ""] /\
  InLine.ViewableImpression (fst (InLine.Validate i)) = [].
Proof.
  apply (InLine_Validate_failure_keeps_lists
           (Sample.inline [Impression.mk "" ""] [Sample.cdata ""] [Sample.creative None])
           "bad creative[0] empty linear/nonlinear").
  reflexivity.
Defined.

(** X8.  A document that [VAST.Validate] has accepted is accepted again:
    validating the validated document returns no error. *)
Theorem Validate_accepts_its_result (v : VAST.t) :
  snd (VAST.Validate v) = None ->
  snd (VAST.Validate (fst (VAST.Validate v))) = None.
Proof.
  intros H. apply ok_None. apply ok_None in H. rewrite VAST_Validate_ok in *.
  revert H. unfold Valid.vast, VAST.Validate. destruct (VAST.Ads v) as [|a ads]; [discriminate|].
  intros H. apply andb_prop in H as [_ Hads]. unfold each.
  rewrite each_from_fst
    by (rewrite (forallb_pointwise _ Valid.ad) by apply Ad_Validate_ok; exact Hads).
  cbn [fst VAST.Ads]. rewrite length_map. cbn [length Nat.ltb Nat.leb andb].
  rewrite forallb_forall in Hads. apply forallb_forall. intros a' Hin.
  apply in_map_iff in Hin as (x & <- & Hin). apply Ad_revalid, Hads, Hin.
Qed.

Lemma Validate_accepts_its_result_instance :
  let v := Sample.doc [Sample.inline_ad
             (Sample.inline [Impression.mk "" " "] []
                [Sample.creative (Some (Sample.linear [Tracking.mk "" None ""]
                   [Sample.media 640 360 "video/mp4" "http://a.com/v.mp4"]))])] in
  snd (VAST.Validate (fst (VAST.Validate v))) = None.
Proof.
  intros v. apply (Validate_accepts_its_result v). reflexivity.
Defined.

(** X9.  When the Creatives of an InLine validate, [InLine.Validate] removes
    from Impressions, Errors and ViewableImpression exactly the entries with
    an empty URI or CDATA and keeps the others in their order; the URIs of
    the surviving Impressions and ViewableImpressions are trimmed, the
    surviving Errors are kept as they are. *)
Theorem InLine_Validate_filters (i : InLine.t) :
  snd (InLine.Validate i) = None ->
  InLine.Impressions (fst (InLine.Validate i))
  = map (fun x => Impression.mk (Impression.ID x) (Strings.TrimSpace (Impression.URI x)))
        (List.filter (fun x => nonempty (Impression.URI x)) (InLine.Impressions i)) /\
  InLine.Errors (fst (InLine.Validate i))
  = List.filter (fun x => nonempty (CDATAString.CDATA x)) (InLine.Errors i) /\
  InLine.ViewableImpression (fst (InLine.Validate i))
  = map (fun x => Viewable.mk (Viewable.ID x) (Strings.TrimSpace (Viewable.URI x)))
        (List.filter (fun x => nonempty (Viewable.URI x)) (InLine.ViewableImpression i)).
Proof.
  intros H. apply InLine_Validate_lists. rewrite <- InLine_Validate_ok. apply ok_None, H.
Qed.

Lemma InLine_Validate_filters_instance :
  let i := Sample.inline [Impression.mk "a" ""; Impression.mk "b" " http://a.com/i "]
             [Sample.cdata ""; Sample.cdata " http://a.com/e "]
             [Sample.creative (Some (Sample.linear []
                [Sample.media 640 360 "video/mp4" "http://a.com/v.mp4"]))] in
  InLine.Impressions (fst (InLine.Validate i)) = [Impression.mk "b" "http://a.com/i"] /\
  InLine.Errors (fst (InLine.Validate i)) = [Sample.cdata " http://a.com/e "] /\
  InLine.ViewableImpression (fst (InLine.Validate i)) = [].
Proof.
  intros i. destruct (InLine_Validate_filters i eq_refl) as (H1 & H2 & H3).
  rewrite H1, H2, H3. repeat split.
Defined.

(** ** More on [SetSecure] *)

Lemma secured_map {A} (uri : A -> string) (g : A -> A) secure (l : list A) :
  (forall x, uri (g x) = SecureUrl (uri x) secure) -> secured uri secure (map g l).
Proof.
  intros Hg. unfold secured. apply Forall_forall. intros y Hy.
  apply list_elem_of_In, in_map_iff in Hy as (x & <- & _).
  rewrite Hg. apply SecureUrl_scheme.
Qed.

(** X10.  After [InLine.SetSecure] every Impression, ViewableImpression and
    Error URI of the InLine begins with the scheme of the flag, and so does,
    in every Creative with a Linear, every TrackingEvent, MediaFile,
    ClickTracking and ClickThrough URI, and in every Creative without Linear
    that has a NonLinearAds every TrackingEvent URI; no Creative is added or
    removed. *)
Theorem InLine_SetSecure_secures (il : InLine.t) (secure : bool) :
  let r := InLine.SetSecure secure il in
  secured Impression.URI secure (InLine.Impressions r) /\
  secured Viewable.URI secure (InLine.ViewableImpression r) /\
  secured CDATAString.CDATA secure (InLine.Errors r) /\
  length (InLine.Creatives r) = length (InLine.Creatives il) /\
  (forall c l, In c (InLine.Creatives r) -> Creative.Linear c = Some l ->
     secured Tracking.URI secure (Linear.TrackingEvents l) /\
     secured MediaFile.URI secure (Linear.MediaFiles l) /\
     (forall clicks, Linear.VideoClicks l = Some clicks ->
        secured VideoClick.URI secure (VideoClicks.ClickTrackings clicks) /\
        secured VideoClick.URI secure (VideoClicks.ClickThroughs clicks))) /\
  (forall c n, In c (InLine.Creatives r) -> Creative.Linear c = None ->
     Creative.NonLinearAds c = Some n ->
     secured Tracking.URI secure (NonLinearAds.TrackingEvents n)).
Proof.
  unfold InLine.SetSecure.
  cbn [InLine.Impressions InLine.ViewableImpression InLine.Errors InLine.Creatives
       InLine.set_Creatives InLine.set_ViewableImpression InLine.set_Impressions
       InLine.set_Errors].
  split; [apply secured_map; reflexivity|]. split; [apply secured_map; reflexivity|].
  split; [apply secured_map; reflexivity|]. split; [apply length_map|]. split.
  - intros c l Hc Hl. apply in_map_iff in Hc as (c0 & <- & _). revert Hl.
    unfold Creative.SetSecure. destruct (Creative.Linear c0) as [l0|] eqn:Hl0.
    + cbn [Creative.Linear Creative.set_Linear]. intros [= <-].
      unfold Linear.set_MediaFiles, Linear.set_TrackingEvents, Linear.set_VideoClicks.
      cbn [Linear.VideoClicks].
      destruct (Linear.VideoClicks l0) as [clicks0|];
        cbn [Linear.TrackingEvents Linear.MediaFiles Linear.VideoClicks];
        (split; [apply secured_map; reflexivity|]);
        (split; [apply secured_map; reflexivity|]);
        intros clicks; [|discriminate].
      intros [= <-]. cbn [VideoClicks.ClickTrackings VideoClicks.ClickThroughs].
      split; apply secured_map; reflexivity.
    + destruct (Creative.NonLinearAds c0);
        cbn [Creative.Linear Creative.set_NonLinearAds]; rewrite ?Hl0; discriminate.
  - intros c n Hc Hl Hn. apply in_map_iff in Hc as (c0 & <- & _). revert Hl Hn.
    unfold Creative.SetSecure. destruct (Creative.Linear c0) as [l0|] eqn:Hl0.
    + cbn [Creative.Linear Creative.set_Linear]. discriminate.
    + destruct (Creative.NonLinearAds c0) as [n0|] eqn:Hn0.
      * cbn [Creative.NonLinearAds Creative.set_NonLinearAds]. intros _ [= <-].
        cbn [NonLinearAds.TrackingEvents]. apply secured_map. reflexivity.
      * rewrite Hn0. discriminate.
Qed.

Lemma InLine_SetSecure_secures_instance :
  secured MediaFile.URI true [Sample.media 640 360 "video/mp4" "https://a.com/v.mp4"].
Proof.
  destruct (InLine_SetSecure_secures
              (Sample.inline [] []
                 [Sample.creative (Some (Sample.linear []
                    [Sample.media 640 360 "video/mp4" "http://a.com/v.mp4"]))]) true)
    as (_ & _ & _ & _ & H & _).
  destruct (H _ _ (or_introl eq_refl) eq_refl) as (_ & Hm & _). exact Hm.
Defined.



Lemma omap_all_length {A} (f : A -> option A) (l : list A) :
  (forall x, In x l -> f x <> None) -> length (omap f l) = length l.
Proof.
  induction l as [|x l IH]; intros H; [reflexivity|]. cbn [omap list_omap].
  destruct (f x) eqn:Hx; [|exfalso; apply (H x); [left; reflexivity|exact Hx]].
  cbn [length]. f_equal. apply IH. intros y Hy. apply H. right. exact Hy.
Qed.

(** X12.  In [Validate] after [SetSecure] the filters of an InLine drop
    nothing: [SecureUrl] turns an empty URI into the bare scheme, so when the
    secured InLine validates, it keeps as many Impressions, Errors and
    ViewableImpressions as the InLine had before [SetSecure]. *)
Theorem Validate_after_SetSecure_drops_nothing (il : InLine.t) (secure : bool) :
  snd (InLine.Validate (InLine.SetSecure secure il)) = None ->
  let r := fst (InLine.Validate (InLine.SetSecure secure il)) in
  length (InLine.Impressions r) = length (InLine.Impressions il) /\
  length (InLine.Errors r) = length (InLine.Errors il) /\
  length (InLine.ViewableImpression r) = length (InLine.ViewableImpression il).
Proof.
  intros Hv. apply ok_None in Hv. rewrite InLine_Validate_ok in Hv.
  rewrite (InLine_Validate_success _ Hv).
  unfold InLine.SetSecure.
  cbn [fst InLine.Impressions InLine.ViewableImpression InLine.Errors InLine.Creatives
       InLine.set_Creatives InLine.set_ViewableImpression InLine.set_Impressions
       InLine.set_Errors].
  repeat split.
  - rewrite omap_all_length, length_map; [reflexivity|].
    intros x Hx. apply in_map_iff in Hx as (y & <- & _).
    unfold InLine.keepImp, InLine.secure_impression. cbn [Impression.URI].
    rewrite SecureUrl_nonempty. discriminate.
  - rewrite omap_all_length, length_map; [reflexivity|].
    intros x Hx. apply in_map_iff in Hx as (y & <- & _).
    unfold InLine.keepErr, InLine.secure_cdata. cbn [CDATAString.CDATA].
    rewrite SecureUrl_nonempty. discriminate.
  - rewrite omap_all_length, length_map; [reflexivity|].
    intros x Hx. apply in_map_iff in Hx as (y & <- & _).
    unfold InLine.keepVImp, InLine.secure_viewable. cbn [Viewable.URI].
    rewrite SecureUrl_nonempty. discriminate.
Qed.

Lemma Validate_after_SetSecure_drops_nothing_instance :
  let il := Sample.inline [Impression.mk "" ""; Impression.mk "" "http://a.com/i"]
              [Sample.cdata ""]
              [Sample.creative (Some (Sample.linear []
                 [Sample.media 640 360 "video/mp4" "http://a.com/v.mp4"]))] in
  let r := fst (InLine.Validate (InLine.SetSecure true il)) in
  length (InLine.Impressions r) = 2%nat /\
  length (InLine.Errors r) = 1%nat /\
  length (InLine.ViewableImpression r) = 0%nat.
Proof.
  intros il. apply (Validate_after_SetSecure_drops_nothing il true). vm_compute. reflexivity.
Defined.

(** ** More on [FilterFormat] and [FilterSize] *)

Section FormatSound.
Variables (files : list MediaFile.t) (format : list string).
Local Abbreviation format_inv := (format_invariant files format).

Lemma format_body_inv f m st :
  In f format -> In m files -> format_inv st -> format_inv (VAST.format_body f m st).
Proof.
  intros Hf Hm [Hs Ho]. unfold VAST.format_body.
  destruct (String.eqb (MediaFile.Type_ m) f) eqn:E; [|split; assumption].
  apply String.eqb_eq in E. split; simpl.
  - apply Forall_insert; assumption.
  - apply Forall_app. split; [exact Ho|]. apply Forall_cons. split; [|apply Forall_nil_2].
    split; [exact Hm|]. rewrite E. exact Hf.
Qed.

Lemma range_from_inv f count :
  In f format ->
  forall i st, format_inv st -> format_inv (range_from (VAST.format_body f) count i st).
Proof.
  intros Hf. induction count as [|c IH]; intros i st Hst; simpl; [exact Hst|].
  destruct (store st !! i) as [m|] eqn:Hm; [|exact Hst].
  apply IH, format_body_inv; [exact Hf| |exact Hst].
  destruct Hst as [Hs _]. rewrite Forall_lookup in Hs. exact (Hs i m Hm).
Qed.

Lemma passes_inv (fs : list string) :
  (forall f, In f fs -> In f format) ->
  forall st, format_inv st ->
             format_inv (fold_left (fun st f => VAST.format_pass f st) fs st).
Proof.
  induction fs as [|f fs IH]; intros Hfs st Hst; simpl; [exact Hst|].
  apply IH; [intros g Hg; apply Hfs; right; exact Hg|].
  unfold VAST.format_pass, range. apply range_from_inv; [apply Hfs; left; reflexivity|exact Hst].
Qed.

Lemma format_loop_inv : format_inv (VAST.format_loop format files).
Proof.
  unfold VAST.format_loop. apply passes_inv; [auto|]. split; simpl.
  - apply Forall_forall. intros m Hm. apply list_elem_of_In. exact Hm.
  - apply Forall_nil_2.
Qed.
End FormatSound.

(** X13.  Whatever the requested formats and however the passes overwrite
    the array they read, a successful [FilterFormat] leaves a non-empty list
    in which every entry is one of the original MediaFiles and has one of
    the requested types. *)
Theorem FilterFormat_keeps_only_requested (format : list string) (v v' : VAST.t)
        ad ads il c cs l :
  VAST.Ads v = ad :: ads ->
  Ad.InLine ad = Some il ->
  InLine.Creatives il = c :: cs ->
  Creative.Linear c = Some l ->
  VAST.FilterFormat format v = Returned v' None ->
  exists media,
    media <> [] /\
    v' = VAST.set_media v ad ads il c cs l media /\
    Forall (fun m => In m (Linear.MediaFiles l) /\ In (MediaFile.Type_ m) format) media.
Proof.
  intros Hads Hil Hcs Hl. unfold VAST.FilterFormat.
  rewrite (with_media_reached v ad ads il c cs l _ Hads Hil Hcs Hl).
  pose proof (format_loop_inv (Linear.MediaFiles l) format) as [_ Hout].
  destruct (out (VAST.format_loop format (Linear.MediaFiles l))) as [|m ms]; [discriminate|].
  intros [= <-]. exists (m :: ms). split; [discriminate|]. split; [reflexivity|exact Hout].
Qed.

Lemma FilterFormat_keeps_only_requested_instance :
  let a := Sample.media 640 360 "video/mp4" "http://a.com/a.mp4" in
  let b := Sample.media 640 360 "video/webm" "http://a.com/b.webm" in
  exists media,
    media <> [] /\
    Sample.media_doc [b] = Sample.media_doc media /\
    Forall (fun m => In m [a; b] /\ In (MediaFile.Type_ m) ["video/webm"; "video/mp4"]) media.
Proof.
  intros a b.
  apply (FilterFormat_keeps_only_requested ["video/webm"; "video/mp4"]
           (Sample.media_doc [a; b]) (Sample.media_doc [b]) _ _ _ _ _ _
           eq_refl eq_refl eq_refl eq_refl).
  vm_compute. reflexivity.
Defined.

(** X14.  With one requested format, [FilterFormat] keeps exactly the
    MediaFiles of that type, in their order; when there is none it fails
    with ["empty media by format"] and leaves the document as it was. *)
Theorem FilterFormat_one_format (f : string) (v : VAST.t) ad ads il c cs l :
  VAST.Ads v = ad :: ads ->
  Ad.InLine ad = Some il ->
  InLine.Creatives il = c :: cs ->
  Creative.Linear c = Some l ->
  VAST.FilterFormat [f] v
  = match of_format f (Linear.MediaFiles l) with
    | [] => Returned v (Some "empty media by format")
    | media => Returned (VAST.set_media v ad ads il c cs l media) None
    end.
Proof. apply FilterFormat_single. Qed.

Lemma FilterFormat_one_format_instance :
  let a := Sample.media 640 360 "video/mp4" "http://a.com/a.mp4" in
  let b := Sample.media 640 360 "video/webm" "http://a.com/b.webm" in
  let c := Sample.media 1280 720 "video/mp4" "http://a.com/c.mp4" in
  VAST.FilterFormat ["video/mp4"] (Sample.media_doc [a; b; c])
  = Returned (Sample.media_doc [a; c]) None.
Proof.
  intros a b c.
  rewrite (FilterFormat_one_format "video/mp4" (Sample.media_doc [a; b; c]) _ _ _ _ _ _
             eq_refl eq_refl eq_refl eq_refl).
  reflexivity.
Defined.

(** X15.  [FilterFormat] fails with ["empty media by format"], leaving the
    document as it was, when no MediaFile has one of the requested types (in
    particular for an empty list of formats), and succeeds as soon as one
    MediaFile has one of them. *)
Theorem FilterFormat_fails_without_match (format : list string) (v : VAST.t)
        ad ads il c cs l :
  VAST.Ads v = ad :: ads ->
  Ad.InLine ad = Some il ->
  InLine.Creatives il = c :: cs ->
  Creative.Linear c = Some l ->
  ((forall f, In f format -> of_format f (Linear.MediaFiles l) = []) ->
   VAST.FilterFormat format v = Returned v (Some "empty media by format")) /\
  (forall f, In f format -> of_format f (Linear.MediaFiles l) <> [] ->
             exists v', VAST.FilterFormat format v = Returned v' None).
Proof. apply FilterFormat_error. Qed.

Lemma FilterFormat_fails_without_match_instance :
  let a := Sample.media 640 360 "video/mp4" "http://a.com/a.mp4" in
  VAST.FilterFormat ["video/webm"; "video/mpeg"] (Sample.media_doc [a])
  = Returned (Sample.media_doc [a]) (Some "empty media by format").
Proof.
  intros a.
  apply (proj1 (FilterFormat_fails_without_match ["video/webm"; "video/mpeg"]
                  (Sample.media_doc [a]) _ _ _ _ _ _ eq_refl eq_refl eq_refl eq_refl)).
  intros f [<-|[<-|[]]]; reflexivity.
Defined.

Lemma same_orientation_target w h m :
  same_orientation w h m = true -> Z.sgn (int_sub w h) <> 0.
Proof.
  unfold same_orientation. intros H. apply andb_prop in H as [_ H].
  destruct (Z.eqb_spec (Z.sgn (int_sub w h)) 0); [discriminate|assumption].
Qed.

Lemma FilterSize_on_resized (w h : Z) (v : VAST.t) ad ads il c cs l best :
  Z.sgn (int_sub w h) <> 0 ->
  VAST.FilterSize w h (VAST.set_media v ad ads il c cs l [MediaFile.set_size w h best])
  = Returned (VAST.set_media v ad ads il c cs l [MediaFile.set_size w h best]) None.
Proof.
  intros Hsgn.
  assert (Hb : same_orientation w h (MediaFile.set_size w h best) = true).
  { unfold same_orientation, MediaFile.set_size. cbn [MediaFile.Width MediaFile.Height].
    rewrite Z.eqb_refl. destruct (Z.eqb_spec (Z.sgn (int_sub w h)) 0); [contradiction|reflexivity]. }
  unfold VAST.FilterSize, VAST.set_media, VAST.with_media.
  cbn [VAST.Ads Ad.InLine InLine.Creatives InLine.set_Creatives Creative.Linear
       Creative.set_Linear Linear.MediaFiles Linear.set_MediaFiles].
  rewrite size_pass, out_fold_append. cbn [alias out app List.filter].
  rewrite Hb. cbn [fold_left]. unfold VAST.better. rewrite !lt_irrefl.
  unfold VAST.set_media.
  cbn [VAST.Version VAST.Errors Ad.ID Ad.Sequence Ad.Wrapper InLine.set_Creatives
       Creative.set_Linear Linear.set_MediaFiles].
  reflexivity.
Qed.

(** X16.  [FilterSize] is idempotent: after a successful call, the same call
    on the result succeeds and returns the result unchanged. *)
Theorem FilterSize_twice (w h : Z) (v v' : VAST.t) ad ads il c cs l :
  VAST.Ads v = ad :: ads ->
  Ad.InLine ad = Some il ->
  InLine.Creatives il = c :: cs ->
  Creative.Linear c = Some l ->
  VAST.FilterSize w h v = Returned v' None ->
  VAST.FilterSize w h v' = Returned v' None.
Proof.
  intros Hads Hil Hcs Hl. unfold VAST.FilterSize at 1.
  rewrite (with_media_reached v ad ads il c cs l _ Hads Hil Hcs Hl).
  rewrite size_pass, out_fold_append. cbn [alias out app].
  destruct (List.filter (same_orientation w h) (Linear.MediaFiles l)) as [|first rest] eqn:Hc;
    [discriminate|].
  intros [= <-]. apply FilterSize_on_resized.
  apply (same_orientation_target w h first).
  assert (Hin : In first (first :: rest)) by (left; reflexivity).
  rewrite <- Hc in Hin. apply filter_In in Hin. exact (proj2 Hin).
Qed.

Lemma FilterSize_twice_instance :
  let files := [Sample.media 1280 960 "video/mp4" "http://a.com/a.mp4";
                Sample.media 1024 600 "video/mp4" "http://a.com/b.mp4"] in
  let v' := Sample.media_doc [Sample.media 1280 720 "video/mp4" "http://a.com/b.mp4"] in
  VAST.FilterSize 1280 720 v' = Returned v' None.
Proof.
  intros files v'.
  apply (FilterSize_twice 1280 720 (Sample.media_doc files) v' _ _ _ _ _ _
           eq_refl eq_refl eq_refl eq_refl).
  vm_compute. reflexivity.
Defined.

(** X17.  A square target never matches: [FilterSize(w, w)] fails with
    ["empty media by size"] and leaves the document as it was, whatever the
    MediaFiles are. *)
Theorem FilterSize_square_target (w : Z) (v : VAST.t) ad ads il c cs l :
  VAST.Ads v = ad :: ads ->
  Ad.InLine ad = Some il ->
  InLine.Creatives il = c :: cs ->
  Creative.Linear c = Some l ->
  VAST.FilterSize w w v = Returned v (Some "empty media by size").
Proof.
  intros Hads Hil Hcs Hl. unfold VAST.FilterSize.
  rewrite (with_media_reached v ad ads il c cs l _ Hads Hil Hcs Hl).
  rewrite size_pass, out_fold_append. cbn [alias out app].
  assert (Hnone : List.filter (same_orientation w w) (Linear.MediaFiles l) = []).
  { induction (Linear.MediaFiles l) as [|m ms IH]; [reflexivity|]. cbn [List.filter].
    unfold same_orientation at 1, int_sub at 2 3. rewrite Z.sub_diag.
    change (Z.sgn (wrap64 0) =? 0) with true. rewrite andb_false_r. exact IH. }
  rewrite Hnone. cbn [fold_left store alias].
  rewrite (set_media_same v ad ads il c cs l Hads Hil Hcs Hl). reflexivity.
Qed.

Lemma FilterSize_square_target_instance :
  let v := Sample.media_doc [Sample.media 640 640 "video/mp4" "http://a.com/a.mp4";
                             Sample.media 1280 720 "video/mp4" "http://a.com/b.mp4"] in
  VAST.FilterSize 640 640 v = Returned v (Some "empty media by size").
Proof.
  intros v.
  apply (FilterSize_square_target 640 v _ _ _ _ _ _ eq_refl eq_refl eq_refl eq_refl).
Defined.

(** ** The assembly methods *)

Lemma set_first_same (v : VAST.t) ad ads :
  VAST.Ads v = ad :: ads -> VAST.set_first v ad ads = v.
Proof. destruct v. simpl. intros ->. reflexivity. Qed.

Lemma AddExtention_wrapper (exts : list Extension.t) :
  forall v ad ads w,
    VAST.Ads v = ad :: ads ->
    Ad.Wrapper ad = Some w ->
    VAST.AddExtention exts v
    = Done (VAST.set_first v
              (Update.Ad_Wrapper
                 (Update.Wrapper_Extensions
                    (Wrapper.Extensions w
                     ++ List.filter (fun e => nonempty (Extension.Type_ e)) exts) w) ad) ads).
Proof.
  induction exts as [|ext rest IH]; intros v ad ads w Hads Hw.
  - destruct v, ad, w. simpl in *. subst. rewrite app_nil_r. reflexivity.
  - cbn [VAST.AddExtention List.filter]. unfold nonempty at 1.
    destruct (String.eqb (Extension.Type_ ext) ""); cbn [negb]; [apply IH; assumption|].
    unfold VAST.add_extension. rewrite Hads, Hw.
    erewrite IH; [|unfold VAST.set_first; cbn [VAST.Ads]; reflexivity
                  |unfold Update.Ad_Wrapper; cbn [Ad.Wrapper]; reflexivity].
    unfold VAST.set_first, Update.Ad_Wrapper, Update.Wrapper_Extensions.
    cbn [VAST.Version VAST.Errors Ad.ID Ad.Sequence Ad.InLine Wrapper.AdSystem
         Wrapper.VASTAdTagURI Wrapper.Impressions Wrapper.ViewableImpression Wrapper.Errors
         Wrapper.Creatives Wrapper.Extensions Wrapper.FallbackOnNoAd Wrapper.AllowMultipleAds
         Wrapper.FollowAdditionalWrappers].
    rewrite <- app_assoc. reflexivity.
Qed.

Lemma AddExtention_inline (exts : list Extension.t) :
  forall v ad ads il,
    VAST.Ads v = ad :: ads ->
    Ad.Wrapper ad = None ->
    Ad.InLine ad = Some il ->
    VAST.AddExtention exts v
    = Done (VAST.set_first v
              (Update.Ad_InLine
                 (Update.InLine_Extensions
                    (InLine.Extensions il
                     ++ List.filter (fun e => nonempty (Extension.Type_ e)) exts) il) ad) ads).
Proof.
  induction exts as [|ext rest IH]; intros v ad ads il Hads Hw Hil.
  - destruct v, ad, il. simpl in *. subst. rewrite app_nil_r. reflexivity.
  - cbn [VAST.AddExtention List.filter]. unfold nonempty at 1.
    destruct (String.eqb (Extension.Type_ ext) ""); cbn [negb]; [apply IH; assumption|].
    unfold VAST.add_extension. rewrite Hads, Hw, Hil.
    erewrite IH; [|unfold VAST.set_first; cbn [VAST.Ads]; reflexivity
                  |unfold Update.Ad_InLine; cbn [Ad.Wrapper]; exact Hw
                  |unfold Update.Ad_InLine; cbn [Ad.InLine]; reflexivity].
    unfold VAST.set_first, Update.Ad_InLine, Update.InLine_Extensions.
    cbn [VAST.Version VAST.Errors Ad.ID Ad.Sequence Ad.Wrapper InLine.AdSystem InLine.AdTitle
         InLine.Impressions InLine.ViewableImpression InLine.Creatives InLine.Description
         InLine.Advertiser InLine.Survey InLine.Errors InLine.Pricing InLine.Extensions].
    rewrite <- app_assoc. reflexivity.
Qed.

Lemma AddExtention_neither (exts : list Extension.t) v ad ads :
  VAST.Ads v = ad :: ads ->
  Ad.Wrapper ad = None ->
  Ad.InLine ad = None ->
  VAST.AddExtention exts v = Done v.
Proof.
  intros Hads Hw Hil. induction exts as [|ext rest IH]; [reflexivity|].
  cbn [VAST.AddExtention]. destruct (String.eqb (Extension.Type_ ext) ""); [exact IH|].
  unfold VAST.add_extension. rewrite Hads, Hw, Hil. exact IH.
Qed.

Lemma AddExtention_empty_document (exts : list Extension.t) v :
  VAST.Ads v = [] ->
  VAST.AddExtention exts v
  = if forallb (fun e => String.eqb (Extension.Type_ e) "") exts
    then Done v else Panics IndexOutOfRange.
Proof.
  intros Hads. induction exts as [|ext rest IH]; [reflexivity|].
  cbn [VAST.AddExtention forallb]. destruct (String.eqb (Extension.Type_ ext) ""); [exact IH|].
  unfold VAST.add_extension. rewrite Hads. reflexivity.
Qed.

(** X18.  On a document with at least one Ad, [AddExtention] appends to the
    Extensions of the first Ad - of its Wrapper if it has one, else of its
    InLine - the given Extensions whose [Type] is not empty, in their order,
    and silently skips the others; with neither Wrapper nor InLine nothing
    changes. *)
Theorem AddExtention_appends_typed (exts : list Extension.t) (v : VAST.t) ad ads :
  VAST.Ads v = ad :: ads ->
  let typed := List.filter (fun e => nonempty (Extension.Type_ e)) exts in
  VAST.AddExtention exts v
  = Done match Ad.Wrapper ad, Ad.InLine ad with
         | Some w, _ =>
             VAST.set_first v
               (Update.Ad_Wrapper
                  (Update.Wrapper_Extensions (Wrapper.Extensions w ++ typed) w) ad) ads
         | None, Some il =>
             VAST.set_first v
               (Update.Ad_InLine
                  (Update.InLine_Extensions (InLine.Extensions il ++ typed) il) ad) ads
         | None, None => v
         end.
Proof.
  intros Hads typed. destruct (Ad.Wrapper ad) as [w|] eqn:Hw.
  - apply AddExtention_wrapper; assumption.
  - destruct (Ad.InLine ad) as [il|] eqn:Hil.
    + apply AddExtention_inline; assumption.
    + apply (AddExtention_neither exts v ad ads); assumption.
Qed.

Lemma AddExtention_appends_typed_instance :
  let e1 := Extension.mk "waterfall" "" [] "<a/>" ∅ in
  let e2 := Extension.mk "" "untyped" [] "<b/>" ∅ in
  VAST.AddExtention [e1; e2; e1] (Sample.doc [Sample.wrapper_ad (Sample.wrapper [] [])])
  = Done (Sample.doc [Sample.wrapper_ad
            (Wrapper.mk None (Sample.cdata "") [] [] [] [] [e1; e1] None None None)]).
Proof.
  intros e1 e2.
  apply (AddExtention_appends_typed [e1; e2; e1]
           (Sample.doc [Sample.wrapper_ad (Sample.wrapper [] [])]) _ _ eq_refl).
Defined.

(** X19.  On a document without Ads, [AddExtention] returns without a change
    when every given Extension has an empty [Type] (in particular when none
    is given), and panics with an index out of range as soon as one has a
    type. *)
Theorem AddExtention_without_ads (exts : list Extension.t) (v : VAST.t) :
  VAST.Ads v = [] ->
  VAST.AddExtention exts v
  = if forallb (fun e => String.eqb (Extension.Type_ e) "") exts
    then Done v else Panics IndexOutOfRange.
Proof. apply AddExtention_empty_document. Qed.

Lemma AddExtention_without_ads_instance :
  VAST.AddExtention [Extension.mk "" "n" [] "" ∅] (Sample.doc []) = Done (Sample.doc []) /\
  VAST.AddExtention [Extension.mk "" "n" [] "" ∅; Extension.mk "t" "" [] "" ∅] (Sample.doc [])
  = Panics IndexOutOfRange.
Proof.
  split.
  - apply (AddExtention_without_ads [Extension.mk "" "n" [] "" ∅] (Sample.doc []) eq_refl).
  - apply (AddExtention_without_ads
             [Extension.mk "" "n" [] "" ∅; Extension.mk "t" "" [] "" ∅] (Sample.doc []) eq_refl).
Defined.

(** X20.  Clearing after adding is clearing: whenever [AddExtention] returns,
    [ClearExtention] on its result gives what [ClearExtention] gives on the
    original document. *)
Theorem ClearExtention_after_AddExtention (exts : list Extension.t) (v v' : VAST.t) :
  VAST.AddExtention exts v = Done v' ->
  VAST.ClearExtention v' = VAST.ClearExtention v.
Proof.
  destruct (VAST.Ads v) as [|ad ads] eqn:Hads.
  - rewrite (AddExtention_empty_document exts v Hads).
    destruct (forallb _ exts); [|discriminate]. intros [= <-]. reflexivity.
  - destruct (Ad.Wrapper ad) as [w|] eqn:Hw.
    + rewrite (AddExtention_wrapper exts v ad ads w Hads Hw). intros [= <-].
      unfold VAST.ClearExtention. rewrite Hads, Hw. reflexivity.
    + destruct (Ad.InLine ad) as [il|] eqn:Hil.
      * rewrite (AddExtention_inline exts v ad ads il Hads Hw Hil). intros [= <-].
        unfold VAST.ClearExtention. rewrite Hads, Hw, Hil.
        unfold VAST.set_first, Update.Ad_InLine. cbn [VAST.Ads Ad.Wrapper Ad.InLine].
        rewrite Hw. reflexivity.
      * rewrite (AddExtention_neither exts v ad ads Hads Hw Hil). intros [= <-]. reflexivity.
Qed.

Lemma ClearExtention_after_AddExtention_instance :
  let v := Sample.doc [Sample.inline_ad (Sample.inline [] [] [])] in
  let e := Extension.mk "t" "" [] "<a/>" ∅ in
  VAST.ClearExtention
    (Sample.doc [Sample.inline_ad
       (InLine.mk None (Sample.cdata "ad") [] [] [] (Sample.cdata "") "" (Sample.cdata "") []
          "" [e])])
  = VAST.ClearExtention v.
Proof.
  intros v e. apply (ClearExtention_after_AddExtention [e] v). reflexivity.
Defined.

Lemma visit_clicks_panics f (cs : list Creative.t) :
  forallb clickable cs = false -> visit (VAST.on_clicks f) cs = Panics NilDereference.
Proof.
  induction cs as [|c cs IH]; [discriminate|]. cbn [forallb visit].
  unfold clickable at 1, VAST.on_clicks at 1.
  destruct (Creative.Linear c) as [l|]; [destruct (Linear.VideoClicks l)|];
    cbn [andb]; try reflexivity; intros H; rewrite (IH H); reflexivity.
Qed.

Lemma visit_clicks_done f (cs : list Creative.t) :
  forallb clickable cs = true -> exists cs', visit (VAST.on_clicks f) cs = Done cs'.
Proof.
  induction cs as [|c cs IH]; [eexists; reflexivity|]. cbn [forallb visit].
  unfold clickable at 1, VAST.on_clicks at 1.
  destruct (Creative.Linear c) as [l|]; [destruct (Linear.VideoClicks l)|];
    cbn [andb]; try discriminate; intros H; destruct (IH H) as [cs' ->];
    eexists; reflexivity.
Qed.

(** X21.  On an InLine first Ad (one without Wrapper), [AddClickTracking]
    and [SetClickThrough] return when every Creative with a Linear has a
    VideoClicks, and panic with a nil dereference when one has none. *)
Theorem click_methods_need_VideoClicks (tracking : list VideoClick.t) (click : VideoClick.t)
        (v : VAST.t) ad ads il :
  VAST.Ads v = ad :: ads ->
  Ad.Wrapper ad = None ->
  Ad.InLine ad = Some il ->
  (forallb clickable (InLine.Creatives il) = false ->
   VAST.AddClickTracking tracking v = Panics NilDereference /\
   VAST.SetClickThrough click v = Panics NilDereference) /\
  (forallb clickable (InLine.Creatives il) = true ->
   (exists v', VAST.AddClickTracking tracking v = Done v') /\
   (exists v', VAST.SetClickThrough click v = Done v')).
Proof.
  intros Hads Hw Hil. unfold VAST.AddClickTracking, VAST.SetClickThrough.
  rewrite Hads, Hw, Hil. split; intros H.
  - rewrite !(visit_clicks_panics _ _ H). split; reflexivity.
  - split.
    + destruct (visit_clicks_done
                  (fun clicks => Update.ClickTrackings
                                   (VideoClicks.ClickTrackings clicks ++ tracking) clicks)
                  _ H) as [cs' ->]. eexists. reflexivity.
    + destruct (visit_clicks_done (Update.ClickThroughs [click]) _ H) as [cs' ->].
      eexists. reflexivity.
Qed.

Lemma click_methods_need_VideoClicks_instance :
  let v := Sample.media_doc [Sample.media 640 360 "video/mp4" "http://a.com/v.mp4"] in
  VAST.AddClickTracking [VideoClick.mk "" "http://a.com/c"] v = Panics NilDereference /\
  VAST.SetClickThrough (VideoClick.mk "" "http://a.com/c") v = Panics NilDereference.
Proof.
  intros v.
  apply (proj1 (click_methods_need_VideoClicks [VideoClick.mk "" "http://a.com/c"]
                  (VideoClick.mk "" "http://a.com/c") v _ _ _ eq_refl eq_refl eq_refl)).
  reflexivity.
Defined.

(** X22.  Appending impressions composes: [AddImpression] of [b] after
    [AddImpression] of [a] is [AddImpression] of [a ++ b], and the same holds
    for [AddViewable]. *)
Theorem AddImpression_composes (v v1 : VAST.t) :
  (forall a b : list Impression.t,
      VAST.AddImpression a v = Done v1 ->
      VAST.AddImpression b v1 = VAST.AddImpression (a ++ b) v) /\
  (forall a b : list Viewable.t,
      VAST.AddViewable a v = Done v1 ->
      VAST.AddViewable b v1 = VAST.AddViewable (a ++ b) v).
Proof.
  split; intros a b; unfold VAST.AddImpression, VAST.AddViewable;
    (destruct (VAST.Ads v) as [|ad ads] eqn:Hads; [discriminate|]);
    (destruct (Ad.Wrapper ad) as [w|] eqn:Hw;
       [|destruct (Ad.InLine ad) as [il|] eqn:Hil]);
    intros [= <-]; cbn; rewrite ?Hads, ?Hw, ?Hil, <- ?app_assoc; reflexivity.
Qed.

Lemma AddImpression_composes_instance :
  let v := Sample.doc [Sample.wrapper_ad (Sample.wrapper [] [])] in
  let i := Impression.mk "" "http://a.com/i" in
  let j := Impression.mk "" "http://a.com/j" in
  VAST.AddImpression [j] (Sample.doc [Sample.wrapper_ad (Sample.wrapper [i] [])])
  = VAST.AddImpression [i; j] v.
Proof.
  intros v i j.
  apply (proj1 (AddImpression_composes v (Sample.doc [Sample.wrapper_ad (Sample.wrapper [i] [])]))
           [i] [j]).
  reflexivity.
Defined.

(** X23.  On a document without Ads, [AddError] appends to the
    document-level Errors, and [SetDisplayManager], [AddTracking],
    [AddClickTracking], [AddImpression], [AddViewable], [ClearExtention] and
    [SetClickThrough] all panic with an index out of range. *)
Theorem assembly_without_ads (v : VAST.t) info err tracking clicks imps views click :
  VAST.Ads v = [] ->
  VAST.AddError err v = Done (VAST.mk (VAST.Version v) [] (VAST.Errors v ++ err)) /\
  VAST.SetDisplayManager info v = Panics IndexOutOfRange /\
  VAST.AddTracking tracking v = Panics IndexOutOfRange /\
  VAST.AddClickTracking clicks v = Panics IndexOutOfRange /\
  VAST.AddImpression imps v = Panics IndexOutOfRange /\
  VAST.AddViewable views v = Panics IndexOutOfRange /\
  VAST.ClearExtention v = Panics IndexOutOfRange /\
  VAST.SetClickThrough click v = Panics IndexOutOfRange.
Proof.
  intros Hads.
  unfold VAST.AddError, VAST.SetDisplayManager, VAST.AddTracking, VAST.AddClickTracking,
    VAST.AddImpression, VAST.AddViewable, VAST.ClearExtention, VAST.SetClickThrough.
  rewrite Hads. repeat split.
Qed.

Lemma assembly_without_ads_instance :
  VAST.AddImpression [Impression.mk "" "http://a.com/i"] (Sample.doc [])
  = Panics IndexOutOfRange.
Proof.
  apply (assembly_without_ads (Sample.doc []) (DisplayManage.mk "n" "t" "1") [] [] []
           [Impression.mk "" "http://a.com/i"] [] (VideoClick.mk "" "") eq_refl).
Defined.

(** ** More on the Extension codec *)

(** X24.  [MarshalXML] passes the start element on with its name and its
    attributes, followed by one attribute per entry of [Attributes]; no key
    is left out, the reserved ["type"] and ["name"] included. *)
Theorem MarshalXML_attributes (e : Extension.t) (start : xml.StartElement) :
  let start' := snd (Extension.MarshalXML e start) in
  xml.ElemName start' = xml.ElemName start /\
  length (xml.Attrs start') = (length (xml.Attrs start) + size (Extension.Attributes e))%nat /\
  (forall a, In a (xml.Attrs start) -> In a (xml.Attrs start')) /\
  (forall k x, Extension.Attributes e !! k = Some x ->
               In (xml.mkAttr (xml.mkName "" k) x) (xml.Attrs start')).
Proof.
  unfold Extension.MarshalXML. cbn [snd].
  destruct (Nat.ltb_spec 0 (size (Extension.Attributes e))) as [Hpos|Hzero].
  - cbn [xml.ElemName xml.Attrs]. split; [reflexivity|]. split; [|split].
    + rewrite length_app, length_map, length_map_to_list. reflexivity.
    + intros a Ha. apply in_or_app. left. exact Ha.
    + intros k x Hk. apply in_or_app. right.
      apply in_map_iff. exists (k, x). split; [reflexivity|].
      apply list_elem_of_In, elem_of_map_to_list. exact Hk.
  - assert (Hempty : Extension.Attributes e = ∅) by (apply map_size_empty_iff; lia).
    rewrite Hempty. split; [reflexivity|]. split; [|split].
    + rewrite map_size_empty. lia.
    + auto.
    + intros k x Hk. rewrite lookup_empty in Hk. discriminate.
Qed.

Lemma MarshalXML_attributes_instance :
  let e := Extension.mk "t" "n" [] "" {[ "type" := "other" ]} in
  In (xml.mkAttr (xml.mkName "" "type") "other")
     (xml.Attrs (snd (Extension.MarshalXML e (xml.mkStart (xml.mkName "" "Extension") [])))).
Proof.
  intros e.
  apply (proj2 (proj2 (proj2 (MarshalXML_attributes e
                                (xml.mkStart (xml.mkName "" "Extension") []))))).
  apply lookup_singleton_eq.
Defined.

(** X25.  When the decoder succeeds, [UnmarshalXML] copies type, name and
    tracking list of the decoded value into the receiver; it copies the raw
    data only when the decoded tracking list is empty, and otherwise leaves
    the data the receiver had. *)
Theorem UnmarshalXML_copies_payload dec (e : Extension.t) start (e2 : Extension.t) :
  dec start = (e2, None) ->
  let r := fst (Extension.UnmarshalXML dec e start) in
  Extension.Type_ r = Extension.Type_ e2 /\
  Extension.Name r = Extension.Name e2 /\
  Extension.CustomTracking r = Extension.CustomTracking e2 /\
  Extension.Data r
  = match Extension.CustomTracking e2 with [] => Extension.Data e2 | _ => Extension.Data e end.
Proof. apply UnmarshalXML_payload. Qed.

Lemma UnmarshalXML_copies_payload_instance :
  let t0 := Tracking.mk "start" None "http://a.com/t" in
  let dec (_ : xml.StartElement) := (Extension.mk "t" "n" [t0] "<raw/>" ∅, @None string) in
  let r := fst (Extension.UnmarshalXML dec (Extension.mk "" "" [] "" ∅)
                  (xml.mkStart (xml.mkName "" "Extension") [])) in
  Extension.Type_ r = "t" /\
  Extension.Name r = "n" /\
  Extension.CustomTracking r = [t0] /\
  Extension.Data r = "".
Proof.
  intros t0 dec.
  apply (UnmarshalXML_copies_payload dec (Extension.mk "" "" [] "" ∅)
           (xml.mkStart (xml.mkName "" "Extension") [])
           (Extension.mk "t" "n" [t0] "<raw/>" ∅)).
  reflexivity.
Defined.

(** ** [Validate] once more *)

Lemma filter_filter_same {A} (p : A -> bool) (l : list A) :
  List.filter p (List.filter p l) = List.filter p l.
Proof.
  induction l as [|x l IH]; [reflexivity|]. cbn [List.filter].
  destruct (p x) eqn:E; [cbn [List.filter]; rewrite E, IH|]; auto.
Qed.

(** X26.  [Wrapper.Validate] is idempotent: validating the validated Wrapper
    returns it unchanged, with no error. *)
Theorem Wrapper_Validate_twice (w : Wrapper.t) :
  Wrapper.Validate (fst (Wrapper.Validate w)) = (fst (Wrapper.Validate w), None).
Proof.
  rewrite !Wrapper_Validate_pruned. cbn [fst]. f_equal.
  unfold pruned_wrapper, Wrapper.set_ViewableImpression, Wrapper.set_Impressions.
  cbn [Wrapper.AdSystem Wrapper.VASTAdTagURI Wrapper.Impressions Wrapper.ViewableImpression
       Wrapper.Errors Wrapper.Creatives Wrapper.Extensions Wrapper.FallbackOnNoAd
       Wrapper.AllowMultipleAds Wrapper.FollowAdditionalWrappers].
  rewrite !filter_filter_same. reflexivity.
Qed.

(** X27.  When [Linear.Validate] fails it has not touched the MediaFiles or
    the VideoClicks; the TrackingEvents are either untouched (a media error)
    or already filtered (a tracking error). *)
Theorem Linear_Validate_failure (l l' : Linear.t) (msg : string) :
  Linear.Validate l = (l', Some msg) ->
  Linear.MediaFiles l' = Linear.MediaFiles l /\
  Linear.VideoClicks l' = Linear.VideoClicks l /\
  (Linear.TrackingEvents l' = Linear.TrackingEvents l \/
   Linear.TrackingEvents l'
   = List.filter (fun x => nonempty (Tracking.URI x)) (Linear.TrackingEvents l)).
Proof.
  unfold Linear.Validate. destruct (Linear.MediaFiles l) as [|m ms] eqn:Hm.
  - intros [= <- _]. rewrite Hm. auto.
  - destruct (each _ _ (m :: ms)) as [ms' [e|]].
    + intros [= <- _]. rewrite Hm. auto.
    + unfold Linear.keep. rewrite filter_in_place_omap.
      rewrite (omap_filter (fun x => nonempty (Tracking.URI x))).
      destruct (each _ _ (Linear.TrackingEvents _)) as [ts' [e|]].
      * intros [= <- _]. cbn. rewrite Hm. auto.
      * unfold Linear.set_TrackingEvents. cbn [Linear.VideoClicks].
        destruct (Linear.VideoClicks l) as [clicks|]; [|discriminate].
        rewrite VideoClicks_Validate_pruned. discriminate.
Qed.

Lemma Linear_Validate_failure_instance :
  let m := Sample.media 640 360 "video/mp4" "http://a.com/v.mp4" in
  let l := Sample.linear [Tracking.mk "start" None ""; Tracking.mk "" None "http://a.com/t"] [m] in
  let l' := Sample.linear [Tracking.mk "" None "http://a.com/t"] [m] in
  Linear.MediaFiles l' = Linear.MediaFiles l /\
  Linear.VideoClicks l' = Linear.VideoClicks l /\
  (Linear.TrackingEvents l' = Linear.TrackingEvents l \/
   Linear.TrackingEvents l'
   = List.filter (fun x => nonempty (Tracking.URI x)) (Linear.TrackingEvents l)).
Proof.
  intros m l l'. apply (Linear_Validate_failure l l' "bad track[0] empty event"). reflexivity.
Defined.

(** ** [Validate] followed by [SetSecure] *)

Lemma forallb_map_imp {A} (p q : A -> bool) (g : A -> A) (l : list A) :
  (forall x, p x = true -> q (g x) = true) ->
  forallb p l = true -> forallb q (map g l) = true.
Proof.
  intros H. induction l as [|x l IH]; [reflexivity|]. cbn [forallb map].
  intros Hl. apply andb_prop in Hl as [Hx Hl]. rewrite (H x Hx), (IH Hl). reflexivity.
Qed.

Lemma pruned_linear_strict l : Valid.linear l = true -> Strict.linear (pruned_linear l) = true.
Proof.
  unfold Valid.linear, Strict.linear, pruned_linear.
  cbn [Linear.MediaFiles Linear.TrackingEvents]. intros H.
  apply andb_prop in H as [H Htrack]. rewrite H. cbn [andb]. clear H.
  induction (Linear.TrackingEvents l) as [|t0 ts IH]; [reflexivity|].
  cbn [forallb List.filter] in *. apply andb_prop in Htrack as [Ht Hts].
  unfold Valid.tracking in Ht. destruct (nonempty (Tracking.URI t0)); [|exact (IH Hts)].
  cbn [forallb]. unfold Strict.tracking at 1. simpl in Ht. rewrite Ht. exact (IH Hts).
Qed.

Lemma Creative_Validate_strict c :
  Valid.creative c = true -> Strict.creative (fst (Creative.Validate c)) = true.
Proof.
  unfold Valid.creative, Strict.creative, Creative.Validate.
  destruct (Creative.Linear c) as [l|] eqn:Hl.
  - intros H. rewrite (Linear_Validate_success l H). cbn. apply pruned_linear_strict, H.
  - destruct (Creative.NonLinearAds c); [|discriminate]. intros _. cbn. rewrite Hl. reflexivity.
Qed.

Lemma InLine_Validate_strict i :
  Valid.inline i = true -> Strict.inline (fst (InLine.Validate i)) = true.
Proof.
  intros H. rewrite (InLine_Validate_success i H). revert H.
  unfold Valid.inline, Strict.inline.
  cbn [fst InLine.Creatives InLine.set_ViewableImpression InLine.set_Errors
       InLine.set_Impressions InLine.set_Creatives].
  intros H. apply andb_prop in H as [Hlen Hc]. rewrite length_map, Hlen.
  apply (forallb_map_imp Valid.creative); [apply Creative_Validate_strict|exact Hc].
Qed.

Lemma Ad_Validate_strict a : Valid.ad a = true -> Strict.ad (fst (Ad.Validate a)) = true.
Proof.
  unfold Valid.ad, Strict.ad, Ad.Validate. destruct (Ad.Wrapper a) as [w|] eqn:Hw.
  - rewrite Wrapper_Validate_pruned. reflexivity.
  - destruct (Ad.InLine a) as [i|]; [|discriminate]. intros H.
    pose proof (InLine_Validate_strict i H) as H'. destruct (InLine.Validate i). simpl in *.
    rewrite ?Hw. exact H'.
Qed.

Lemma secure_media_valid secure m :
  Valid.media m = true -> Valid.media (Creative.secure_media secure m) = true.
Proof.
  unfold Valid.media, Creative.secure_media, MediaFile.set_URI.
  cbn [MediaFile.URI MediaFile.Type_ MediaFile.Width MediaFile.Height].
  rewrite SecureUrl_nonempty. intros H. apply andb_prop in H as [H Hh].
  apply andb_prop in H as [H Hw]. apply andb_prop in H as [_ Ht].
  rewrite Ht, Hw, Hh. reflexivity.
Qed.

Lemma secure_tracking_valid secure t0 :
  Strict.tracking t0 = true -> Valid.tracking (Creative.secure_tracking secure t0) = true.
Proof.
  unfold Strict.tracking, Valid.tracking, Creative.secure_tracking.
  cbn [Tracking.URI Tracking.Event]. intros ->. apply orb_true_r.
Qed.

Lemma Creative_SetSecure_valid secure c :
  Strict.creative c = true -> Valid.creative (Creative.SetSecure secure c) = true.
Proof.
  unfold Strict.creative, Valid.creative, Creative.SetSecure.
  destruct (Creative.Linear c) as [l|] eqn:Hl.
  - cbn [Creative.Linear Creative.set_Linear].
    unfold Strict.linear, Valid.linear, Linear.set_MediaFiles, Linear.set_TrackingEvents,
      Linear.set_VideoClicks.
    cbn [Linear.VideoClicks]. intros H. apply andb_prop in H as [H Htrack].
    apply andb_prop in H as [Hlen Hmedia].
    destruct (Linear.VideoClicks l); cbn [Linear.MediaFiles Linear.TrackingEvents];
      rewrite length_map, Hlen,
        (forallb_map_imp Valid.media Valid.media _ _ (secure_media_valid secure) Hmedia),
        (forallb_map_imp Strict.tracking Valid.tracking _ _
           (secure_tracking_valid secure) Htrack);
      reflexivity.
  - destruct (Creative.NonLinearAds c); [|discriminate]. intros _.
    cbn [Creative.Linear Creative.NonLinearAds Creative.set_NonLinearAds].
    rewrite Hl. reflexivity.
Qed.

Lemma Ad_SetSecure_valid secure a :
  Strict.ad a = true -> Valid.ad (Ad.SetSecure secure a) = true.
Proof.
  unfold Strict.ad, Valid.ad, Ad.SetSecure. destruct (Ad.Wrapper a) as [w|] eqn:Hw.
  - rewrite ?Hw. reflexivity.
  - destruct (Ad.InLine a) as [i|] eqn:Hi; [|discriminate].
    cbn [Ad.Wrapper Ad.InLine]. rewrite ?Hw.
    unfold Strict.inline, Valid.inline, InLine.SetSecure.
    cbn [InLine.Creatives InLine.set_Creatives InLine.set_ViewableImpression
         InLine.set_Impressions InLine.set_Errors].
    intros H. apply andb_prop in H as [Hlen Hc]. rewrite length_map, Hlen.
    apply (forallb_map_imp Strict.creative); [apply Creative_SetSecure_valid|exact Hc].
Qed.

(** X28.  The order of the pipeline is safe: when [Validate] accepts a
    document, the validated document after [SetSecure], with either flag, is
    accepted by [Validate] again. *)
Theorem Validate_SetSecure_Validate (v : VAST.t) (secure : bool) :
  snd (VAST.Validate v) = None ->
  snd (VAST.Validate (VAST.SetSecure secure (fst (VAST.Validate v)))) = None.
Proof.
  intros H. apply ok_None. apply ok_None in H. rewrite VAST_Validate_ok in *.
  revert H. unfold Valid.vast, VAST.Validate, VAST.SetSecure.
  destruct (VAST.Ads v) as [|a ads]; [discriminate|].
  intros H. apply andb_prop in H as [_ Hads]. unfold each.
  rewrite each_from_fst
    by (rewrite (forallb_pointwise _ Valid.ad) by apply Ad_Validate_ok; exact Hads).
  cbn [fst VAST.Ads]. rewrite !length_map. cbn [length Nat.ltb Nat.leb andb].
  apply (forallb_map_imp Strict.ad); [apply Ad_SetSecure_valid|].
  apply (forallb_map_imp Valid.ad); [apply Ad_Validate_strict|exact Hads].
Qed.

Lemma Validate_SetSecure_Validate_instance :
  let v := Sample.doc [Sample.inline_ad
             (Sample.inline [Impression.mk "" ""] []
                [Sample.creative (Some (Sample.linear
                   [Tracking.mk "" None ""; Tracking.mk "start" None "http://a.com/t"]
                   [Sample.media 640 360 "video/mp4" "http://a.com/v.mp4"]))])] in
  snd (VAST.Validate (VAST.SetSecure true (fst (VAST.Validate v)))) = None.
Proof.
  intros v. apply (Validate_SetSecure_Validate v true). reflexivity.
Defined.

(** X29.  The other order is not safe for tracking events: [SetSecure] gives
    an unnamed tracking event without URI the bare scheme as URI, so that
    [Validate] no longer drops it; a Linear with such an event is rejected
    after [SetSecure] whatever else it holds. *)
Theorem SetSecure_before_Validate_rejects (c : Creative.t) (l : Linear.t) (secure : bool) t0 :
  Creative.Linear c = Some l ->
  In t0 (Linear.TrackingEvents l) ->
  Tracking.Event t0 = "" ->
  snd (Creative.Validate (Creative.SetSecure secure c)) <> None.
Proof.
  intros Hl Hin He Hok. apply ok_None in Hok. rewrite Creative_Validate_ok in Hok.
  revert Hok. apply not_true_iff_false.
  unfold Valid.creative, Creative.SetSecure. rewrite Hl.
  cbn [Creative.Linear Creative.set_Linear].
  unfold Valid.linear, Linear.set_MediaFiles, Linear.set_TrackingEvents, Linear.set_VideoClicks.
  cbn [Linear.VideoClicks].
  assert (Hbad : forallb Valid.tracking
                   (map (Creative.secure_tracking secure) (Linear.TrackingEvents l)) = false).
  { apply not_true_is_false. intros Hall. rewrite forallb_forall in Hall.
    specialize (Hall (Creative.secure_tracking secure t0) (in_map _ _ _ Hin)).
    unfold Valid.tracking, Creative.secure_tracking in Hall.
    cbn [Tracking.URI Tracking.Event] in Hall.
    rewrite SecureUrl_nonempty, He in Hall. discriminate. }
  destruct (Linear.VideoClicks l); cbn [Linear.MediaFiles Linear.TrackingEvents];
    rewrite Hbad; apply andb_false_r.
Qed.

Lemma SetSecure_before_Validate_rejects_instance :
  let l := Sample.linear [Tracking.mk "" None ""]
             [Sample.media 640 360 "video/mp4" "http://a.com/v.mp4"] in
  snd (Creative.Validate (Sample.creative (Some l))) = None /\
  snd (Creative.Validate (Creative.SetSecure true (Sample.creative (Some l)))) <> None.
Proof.
  intros l. split; [reflexivity|].
  apply (SetSecure_before_Validate_rejects (Sample.creative (Some l)) l true
           (Tracking.mk "" None "") eq_refl); [left; reflexivity|reflexivity].
Defined.

(** ** [AddTracking] *)




